(** * Ruuvi beacon scanner: the payload decoder and the measurement loop

    A shallow embedding of [main.go]: the data-format-5 decoder
    [parsePacket], one scan-and-decode cycle [measure], and the scheduler
    of [main].  Go's [float64] is the kernel's binary64 [float]; a [[]byte]
    is a list of [Byte.byte] with its spare capacity; the Prometheus
    collectors and the standard output are fields of an explicit world that
    every function threads; a run-time panic and [log.Fatal] are outcomes of
    the monad. *)

From Stdlib Require Import ZArith List String Ascii Bool Lia.
From Stdlib.Strings Require Import Byte.
From Stdlib Require Import PrimFloat Uint63.
From stdpp Require Import base option gmap.
Import ListNotations.

#[local] Set Warnings "-inexact-float".
#[local] Open Scope Z_scope.

(* ================================================================== *)
(** ** Go values *)

(** [float64(i)] for an [int64] [i] of magnitude below 2^63; the
    conversion is exact below 2^53, which covers every value the decoder
    converts (at most 65535). *)
Definition float64 (i : Z) : float :=
  if i <? 0 then PrimFloat.opp (PrimFloat.of_uint63 (Uint63.of_Z (- i)))
  else PrimFloat.of_uint63 (Uint63.of_Z i).

Definition byte_val (b : byte) : Z := Z.of_N (Byte.to_N b).

(** A slice: the [len] elements it exposes and the elements of its backing
    array between [len] and [cap]. *)
Record slice := mkSlice { elems : list byte; spare : list byte }.

Definition len (s : slice) : nat := List.length (elems s).
Definition cap (s : slice) : nat := (List.length (elems s) + List.length (spare s))%nat.

(** [make([]byte, n)] *)
Definition make (n : nat) : slice := mkSlice (repeat x00 n) [].

(** [copy(dst, src)]: the first [min(len(dst), len(src))] elements of
    [dst] are overwritten, the rest stay. *)
Definition copy (dst : slice) (src : list byte) : slice :=
  let n := Nat.min (len dst) (List.length src) in
  mkSlice (firstn n src ++ skipn n (elems dst)) (spare dst).

(* ================================================================== *)
(** ** Errors *)

(** The causes a [*strconv.NumError] wraps. *)
Inductive NumError := ErrSyntax | ErrRange | ErrBase | ErrBitSize.

(** The error values of the program.  [ErrAdapter] stands for whatever
    the bluetooth adapter reports; the other constructors are the
    [fmt.Errorf] calls of [main.go]. *)
Inductive error :=
| ErrAdapter (msg : string)
| ErrInvalidFormat
| ErrConvert (field : string) (cause : NumError)
| ErrStoppingScan (cause : error)
| ErrScanning (cause : error)
| ErrParsingPacket (cause : error).

(* ================================================================== *)
(** ** [fmt.Sprintf("%x", b)] on a byte slice *)

Definition ldigits : string := "0123456789abcdef".

Definition hexdigit (d : Z) : ascii :=
  match String.get (Z.to_nat d) ldigits with
  | Some c => c
  | None => "0"%char
  end.

(** Two lower-case digits per byte, most significant first, no
    separator. *)
Fixpoint Sprintf_x (b : list byte) : string :=
  match b with
  | [] => EmptyString
  | c :: b' =>
      String (hexdigit (Z.shiftr (byte_val c) 4))
        (String (hexdigit (Z.land (byte_val c) 15)) (Sprintf_x b'))
  end.

(* ================================================================== *)
(** ** [strconv.ParseInt] for an explicit base *)

Definition maxUint64 : Z := 2 ^ 64 - 1.
Definition wrap64 (n : Z) : Z := n mod 2 ^ 64.

Definition char_code (c : ascii) : Z := Z.of_N (N_of_ascii c).

(** [lower(c)] of strconv: [c | ('x' - 'X')]. *)
Definition lower (c : Z) : Z := Z.lor c 32.

(** The value of one digit character, before the comparison with the
    base. *)
Definition digit_of (c : Z) : option Z :=
  if (48 <=? c) && (c <=? 57) then Some (c - 48)
  else if (97 <=? lower c) && (lower c <=? 122) then Some (lower c - 97 + 10)
  else None.

(** The loop of [ParseUint] over the bytes of the string. *)
Fixpoint ParseUint_loop (base cutoff maxVal : Z) (s : string) (n : Z)
  : Z * option NumError :=
  match s with
  | EmptyString => (n, None)
  | String c s' =>
      match digit_of (char_code c) with
      | None => (0, Some ErrSyntax)
      | Some d =>
          if d >=? base then (0, Some ErrSyntax)
          else if n >=? cutoff then (maxVal, Some ErrRange)
          else
            let n0 := wrap64 (n * base) in
            let n1 := wrap64 (n0 + d) in
            if (n1 <? n0) || (n1 >? maxVal) then (maxVal, Some ErrRange)
            else ParseUint_loop base cutoff maxVal s' n1
      end
  end.

(** [strconv.ParseUint(s, base, bitSize)] for an explicit base, on a
    64-bit platform.  Base 0, where the prefix of the string chooses the
    base and underscores may separate digits, is not used by the program:
    it is outside this model, which answers [ErrBase] there. *)
Definition ParseUint (s : string) (base bitSize : Z) : Z * option NumError :=
  match s with
  | EmptyString => (0, Some ErrSyntax)
  | _ =>
      if negb ((2 <=? base) && (base <=? 36)) then (0, Some ErrBase)
      else
        let bitSize := if bitSize =? 0 then 64 else bitSize in
        if (bitSize <? 0) || (bitSize >? 64) then (0, Some ErrBitSize)
        else
          let cutoff := maxUint64 / base + 1 in
          let maxVal := 2 ^ bitSize - 1 in
          ParseUint_loop base cutoff maxVal s 0
  end.

(** [strconv.ParseInt(s, base, bitSize)]: an optional sign, then
    [ParseUint], then the range check of the signed type. *)
Definition ParseInt (s : string) (base bitSize : Z) : Z * option NumError :=
  match s with
  | EmptyString => (0, Some ErrSyntax)
  | String c0 rest =>
      let neg := Ascii.eqb c0 "-" in
      let s1 := if Ascii.eqb c0 "+" || neg then rest else s in
      match ParseUint s1 base bitSize with
      | (un, None) | (un, Some ErrRange) =>
          let bitSize := if bitSize =? 0 then 64 else bitSize in
          let cutoff := 2 ^ (bitSize - 1) in
          if negb neg && (un >=? cutoff) then (cutoff - 1, Some ErrRange)
          else if neg && (un >? cutoff) then (- cutoff, Some ErrRange)
          else (if neg then - un else un, None)
      | (_, Some e) => (0, Some e)
      end
  end.

(** [strings.Contains(s, substr)] *)
Fixpoint Contains (s substr : string) : bool :=
  if String.prefix substr s then true
  else match s with
       | EmptyString => false
       | String _ s' => Contains s' substr
       end.

(* ================================================================== *)
(** ** The world: metrics and standard output *)

(** What one callback of a scan receives: the fields of
    [bluetooth.ScanResult] that the program's decisions depend on. *)
Record ScanResult := mkScanResult {
  LocalName : string;
  ManufacturerData : gmap N (list byte)
}.

(** The package-level collectors.  A counter is the number of its [Inc]
    calls, a gauge the last value [Set], the histogram the list of its
    observations, most recent first. *)
Record Metrics := mkMetrics {
  numMeasurements : nat;
  numMeasurementsErrs : nat;
  tempGauge : float;
  humidityGauge : float;
  pressureGauge : float;
  measureTime : list float
}.

(** The lines the program prints, one constructor per print statement. *)
Inductive Output :=
| OutData (n : nat) (b : list byte)
| OutTemperature (v : float)
| OutHumidity (v : float)
| OutPressure (v : float)
| OutFoundDevice (d : ScanResult)
| OutStoppingScan
| OutStoppedScan
| OutStartingTicker
| OutError (e : error)
| OutFatal (e : error).

(** [output] lists the printed lines, most recent first. *)
Record World := mkWorld { metrics : Metrics; output : list Output }.

(** How a call ends: it returns, it panics, or the process exits. *)
Inductive outcome (A : Type) :=
| Done (a : A)
| Panic (msg : string)
| Exit (code : Z).
Arguments Done {A} a.
Arguments Panic {A} msg.
Arguments Exit {A} code.

Definition M (A : Type) : Type := World -> outcome A * World.

Definition ret {A} (a : A) : M A := fun w => (Done a, w).

Definition bind {A B} (m : M A) (k : A -> M B) : M B :=
  fun w =>
    match m w with
    | (Done a, w') => k a w'
    | (Panic msg, w') => (Panic msg, w')
    | (Exit code, w') => (Exit code, w')
    end.

Notation "'let*' x ':=' c 'in' k" := (bind c (fun x => k))
  (at level 10, x name, c at level 100, k at level 200).
Notation "c ';;' k" := (bind c (fun _ => k))
  (at level 100, k at level 200, right associativity).

Definition panic {A} (msg : string) : M A := fun w => (Panic msg, w).

(** [defer f] around a body: [f] runs when the body returns and when it
    panics, not when the process exits. *)
Definition defer {A} (f : World -> World) (body : M A) : M A :=
  fun w =>
    match body w with
    | (Exit code, w') => (Exit code, w')
    | (r, w') => (r, f w')
    end.

Definition print (o : Output) : M unit :=
  fun w => (Done tt, mkWorld (metrics w) (o :: output w)).

Definition update (f : Metrics -> Metrics) : M unit :=
  fun w => (Done tt, mkWorld (f (metrics w)) (output w)).

Definition Set_tempGauge (v : float) : M unit :=
  update (fun m => mkMetrics (numMeasurements m) (numMeasurementsErrs m)
                     v (humidityGauge m) (pressureGauge m) (measureTime m)).

Definition Set_humidityGauge (v : float) : M unit :=
  update (fun m => mkMetrics (numMeasurements m) (numMeasurementsErrs m)
                     (tempGauge m) v (pressureGauge m) (measureTime m)).

Definition Set_pressureGauge (v : float) : M unit :=
  update (fun m => mkMetrics (numMeasurements m) (numMeasurementsErrs m)
                     (tempGauge m) (humidityGauge m) v (measureTime m)).

Definition Observe_measureTime (v : float) (w : World) : World :=
  let m := metrics w in
  mkWorld (mkMetrics (numMeasurements m) (numMeasurementsErrs m)
             (tempGauge m) (humidityGauge m) (pressureGauge m)
             (v :: measureTime m))
          (output w).

(** [log.Fatal(err)]: print, then [os.Exit(1)]. *)
Definition log_Fatal {A} (e : error) : M A :=
  fun w => (Exit 1, mkWorld (metrics w) (OutFatal e :: output w)).

(** [buf[i]] *)
Definition index (buf : slice) (i : nat) : M byte :=
  match nth_error (elems buf) i with
  | Some b => ret b
  | None => panic "index out of range"
  end.

(** [buf[lo:hi]]: the bounds are checked against the capacity. *)
Definition slice_expr (buf : slice) (lo hi : nat) : M slice :=
  if ((lo <=? hi)%nat && (hi <=? cap buf)%nat)%bool then
    let arr := elems buf ++ spare buf in
    ret (mkSlice (firstn (hi - lo) (skipn lo arr)) (skipn hi arr))
  else panic "slice bounds out of range".

(* ================================================================== *)
(** ** [parsePacket] *)

Definition parsePacket (buf : slice) : M (option error) :=
  print (OutData (len buf) (elems buf)) ;;
  let* b0 := index buf 0 in
  if negb (byte_val b0 =? 5) then ret (Some ErrInvalidFormat)
  else
    (* Temperature *)
    let* f := slice_expr buf 1 3 in
    let ts := Sprintf_x (elems f) in
    match ParseInt ts 16 64 with
    | (_, Some e) => ret (Some (ErrConvert ts e))
    | (t, None) =>
        let temp := (float64 t * 0.005)%float in
        print (OutTemperature temp) ;;
        Set_tempGauge temp ;;
        (* Humidity *)
        let* f := slice_expr buf 3 5 in
        let hs := Sprintf_x (elems f) in
        match ParseInt hs 16 64 with
        | (_, Some e) => ret (Some (ErrConvert hs e))
        | (h, None) =>
            let humidity := (float64 h * 0.0025)%float in
            print (OutHumidity humidity) ;;
            Set_humidityGauge humidity ;;
            (* Pressure *)
            let* f := slice_expr buf 5 7 in
            let ps := Sprintf_x (elems f) in
            match ParseInt ps 16 64 with
            | (_, Some e) => ret (Some (ErrConvert ps e))
            | (p, None) =>
                let pressure := ((float64 p + 50000) / 100)%float in
                print (OutPressure pressure) ;;
                Set_pressureGauge pressure ;;
                ret None
            end
        end
    end.

(* ================================================================== *)
(** ** [measure] *)

(** What the adapter and the clock do during one call of [measure] that
    returns: the devices [adapter.Scan] hands to the callback, in order,
    each with the result [adapter.StopScan] has if the callback calls it
    there; the error [adapter.Scan] returns ([None] is [nil]), a failure
    to start being [found = []] with an error; and the seconds between
    [time.Now()] and the deferred [time.Since]. *)
Record Cycle := mkCycle {
  found : list (ScanResult * option error);
  scan_err : option error;
  elapsed : float
}.

(** The variables of [measure] its closure writes. *)
Definition locals : Type := slice * option error.

(** The function literal passed to [adapter.Scan]. *)
Definition callback (device : ScanResult) (stop : option error) (l : locals)
  : M locals :=
  let '(buf, stopScanErr) := l in
  print (OutFoundDevice device) ;;
  if negb (Contains (LocalName device) "Ruuvi") then ret (buf, stopScanErr)
  else
    match ManufacturerData device !! 1177%N with
    | None => ret (buf, stopScanErr)
    | Some buffer =>
        let buf := copy buf buffer in
        print OutStoppingScan ;;
        match stop with
        | Some err => ret (buf, Some (ErrStoppingScan err))
        | None => ret (buf, stopScanErr)
        end
    end.

(** [adapter.Scan(callback)]: the callback runs on every device found,
    then [Scan] returns its error. *)
Fixpoint Scan_deliver (ds : list (ScanResult * option error)) (l : locals)
  : M locals :=
  match ds with
  | [] => ret l
  | (device, stop) :: ds' =>
      let* l' := callback device stop l in
      Scan_deliver ds' l'
  end.

Definition Scan (c : Cycle) (l : locals) : M (locals * option error) :=
  let* l' := Scan_deliver (found c) l in
  ret (l', scan_err c).

Definition measure (c : Cycle) : M (option error) :=
  defer (Observe_measureTime (elapsed c))
    (let buf := make 32 in
     let* r := Scan c (buf, None) in
     let '((buf, stopScanErr), err) := r in
     match err with
     | Some e => ret (Some (ErrScanning e))
     | None =>
         match stopScanErr with
         | Some e => ret (Some e)
         | None =>
             print OutStoppedScan ;;
             let* err := parsePacket buf in
             match err with
             | Some e => ret (Some (ErrParsingPacket e))
             | None => ret None
             end
         end
     end).

(* ================================================================== *)
(** ** [main] *)

(** [time.NewTicker(d)] panics unless [d] is positive. *)
Definition NewTicker (d : Z) : M unit :=
  if d <=? 0 then panic "non-positive interval for NewTicker" else ret tt.

(** The [for range ticker.C] loop over the ticks that have fired so far,
    each with what its cycle meets.  The loop has no exit: [Done] here
    says that the process waits for the next tick. *)
Fixpoint ticker_loop (ticks : list Cycle) : M unit :=
  match ticks with
  | [] => ret tt
  | c :: ticks' =>
      let* err := measure c in
      match err with
      | Some e => print (OutError e)
      | None => ret tt
      end ;;
      ticker_loop ticks'
  end.

(** [main], given the value of the [measure_every] flag (nanoseconds),
    the result of [adapter.Enable()], the cycle met at startup and the
    ticks fired so far.  The metrics server only reads the collectors and
    is not part of the model. *)
Definition main (measureEvery : Z) (enable : option error)
  (first : Cycle) (ticks : list Cycle) : M unit :=
  match enable with
  | Some e => log_Fatal e
  | None =>
      let* err := measure first in
      match err with
      | Some e => log_Fatal e
      | None =>
          NewTicker measureEvery ;;
          print OutStartingTicker ;;
          ticker_loop ticks
      end
  end.

(* ================================================================== *)
(** ** Notions used to state what the program does *)

(** The bytes of a field as one big-endian natural number. *)
Definition be_uint (bs : list byte) (acc : Z) : Z :=
  fold_left (fun n b => n * 256 + byte_val b) bs acc.

Definition uint16_be (hi lo : byte) : Z := byte_val hi * 256 + byte_val lo.

(** The two's-complement reading of the same two bytes. *)
Definition int16_be (hi lo : byte) : Z :=
  let u := uint16_be hi lo in
  if u <? 32768 then u else u - 65536.

Definition byte_at (buf : slice) (i : nat) : byte := nth i (elems buf) x00.

(** The scalings of the three fields. *)
Definition temperature_of (raw : Z) : float := (float64 raw * 0.005)%float.
Definition humidity_of (raw : Z) : float := (float64 raw * 0.0025)%float.
Definition pressure_of (raw : Z) : float := ((float64 raw + 50000) / 100)%float.

(** The world after a successful decode: three gauges set, four lines
    printed, nothing else touched. *)
Definition decoded (buf : slice) (t h p : float) (w : World) : World :=
  mkWorld
    (mkMetrics (numMeasurements (metrics w)) (numMeasurementsErrs (metrics w))
       t h p (measureTime (metrics w)))
    (OutPressure p :: OutHumidity h :: OutTemperature t
       :: OutData (len buf) (elems buf) :: output w).

(** The world after a rejected format tag: one line printed. *)
Definition rejected (buf : slice) (w : World) : World :=
  mkWorld (metrics w) (OutData (len buf) (elems buf) :: output w).

(** The payload the callback takes from a device, if the device passes
    both filters. *)
Definition qualifies (d : ScanResult) : option (list byte) :=
  if Contains (LocalName d) "Ruuvi" then ManufacturerData d !! 1177%N else None.

(** The locals of [measure] after the callback ran on one device. *)
Definition after_device (d : ScanResult) (stop : option error) (l : locals)
  : locals :=
  match qualifies d with
  | None => l
  | Some buffer =>
      (copy (fst l) buffer,
       match stop with
       | Some err => Some (ErrStoppingScan err)
       | None => snd l
       end)
  end.

Definition after_scan (ds : list (ScanResult * option error)) (l : locals)
  : locals :=
  fold_left (fun l x => after_device (fst x) (snd x) l) ds l.

(** The lines one callback prints, most recent first. *)
Definition device_output (d : ScanResult) : list Output :=
  match qualifies d with
  | None => [OutFoundDevice d]
  | Some _ => [OutStoppingScan; OutFoundDevice d]
  end.

Fixpoint scan_output (ds : list (ScanResult * option error)) : list Output :=
  match ds with
  | [] => []
  | x :: ds' => scan_output ds' ++ device_output (fst x)
  end.

Definition scanned (ds : list (ScanResult * option error)) (w : World) : World :=
  mkWorld (metrics w) (scan_output ds ++ output w).

(** Only the scan's own two kinds of line are printed by it. *)
Definition scan_line (o : Output) : Prop :=
  match o with
  | OutFoundDevice _ | OutStoppingScan => True
  | _ => False
  end.

(** The buffer and the stop error [measure] holds when [Scan] returns. *)
Definition scan_buf (c : Cycle) : slice := fst (after_scan (found c) (make 32, None)).
Definition scan_stop (c : Cycle) : option error :=
  snd (after_scan (found c) (make 32, None)).

(** The result of the cycle and the world before the deferred
    observation. *)
Definition cycle_result (c : Cycle) (w : World) : option error * World :=
  match scan_err c with
  | Some e => (Some (ErrScanning e), scanned (found c) w)
  | None =>
      match scan_stop c with
      | Some e => (Some e, scanned (found c) w)
      | None =>
          let w1 := mkWorld (metrics w) (OutStoppedScan :: scan_output (found c) ++ output w) in
          if byte_val (byte_at (scan_buf c) 0) =? 5
          then (None,
                decoded (scan_buf c)
                  (temperature_of (uint16_be (byte_at (scan_buf c) 1) (byte_at (scan_buf c) 2)))
                  (humidity_of (uint16_be (byte_at (scan_buf c) 3) (byte_at (scan_buf c) 4)))
                  (pressure_of (uint16_be (byte_at (scan_buf c) 5) (byte_at (scan_buf c) 6)))
                  w1)
          else (Some (ErrParsingPacket ErrInvalidFormat), rejected (scan_buf c) w1)
      end
  end.

(** The world after one pass of the ticker loop's body. *)
Definition after_tick (w : World) (c : Cycle) : World :=
  let w' := Observe_measureTime (elapsed c) (snd (cycle_result c w)) in
  match fst (cycle_result c w) with
  | Some e => mkWorld (metrics w') (OutError e :: output w')
  | None => w'
  end.

(** *** Sample inputs *)

(** The seven bytes [05 01 F4 27 10 C3 50]. *)
Definition sample_payload : list byte := [x05; x01; xf4; x27; x10; xc3; x50].

(** The same with a temperature field of [FF FF]. *)
Definition high_bit_payload : list byte := [x05; xff; xff; x27; x10; xc3; x50].

Definition metrics0 : Metrics := mkMetrics 0 0 0 0 0 [].
Definition world0 : World := mkWorld metrics0 [].

(** A tag that passes both filters of the callback, and one that does
    not. *)
Definition ruuvi (payload : list byte) : ScanResult :=
  mkScanResult "Ruuvi 1A2B" {[ 1177%N := payload ]}.
Definition phone : ScanResult := mkScanResult "Phone" ∅.

Definition good_cycle : Cycle := mkCycle [(ruuvi sample_payload, None)] None 3.
Definition stop_failed_cycle : Cycle :=
  mkCycle [(phone, None); (ruuvi sample_payload, Some (ErrAdapter "stop failed"))] None 4.
Definition start_failed_cycle : Cycle :=
  mkCycle [] (Some (ErrAdapter "start failed")) 1.
Definition bad_format_cycle : Cycle :=
  mkCycle [(ruuvi [x03; x01; xf4; x27; x10; xc3; x50], None)] None 2.

(** The tag is captured, its stop request fails, and the scan itself
    then returns an error. *)
Definition stop_and_scan_failed_cycle : Cycle :=
  mkCycle [(phone, None); (ruuvi sample_payload, Some (ErrAdapter "stop failed"))]
    (Some (ErrAdapter "lost")) 2.


(** [parsePacket] returns [nil] and leaves the three gauges at the given
    values. *)
Definition decodes_to (buf : slice) (w : World) (t h p : float) : Prop :=
  exists w',
    parsePacket buf w = (Done None, w') /\
    tempGauge (metrics w') = t /\
    humidityGauge (metrics w') = h /\
    pressureGauge (metrics w') = p.

(** The callback on this device asks the scan to stop and the request
    fails. *)
Definition stop_fails (x : ScanResult * option error) : bool :=
  match qualifies (fst x), snd x with
  | Some _, Some _ => true
  | _, _ => false
  end.

(** The errors [adapter.StopScan] returned to the callback during a
    scan. *)
Fixpoint stop_errors (ds : list (ScanResult * option error)) : list error :=
  match ds with
  | [] => []
  | (d, stop) :: ds' =>
      match qualifies d, stop with
      | Some _, Some e => e :: stop_errors ds'
      | _, _ => stop_errors ds'
      end
  end.

(** *** Further notions *)

(** The backing array of a slice, up to its capacity, and its bytes. *)
Definition backing (buf : slice) : list byte := elems buf ++ spare buf.
Definition arr_at (buf : slice) (i : nat) : byte := nth i (backing buf) x00.

(** The three gauges of the collectors. *)
Definition gauges (m : Metrics) : float * float * float :=
  (tempGauge m, humidityGauge m, pressureGauge m).

(** A closed interval of binary64 numbers. *)
Definition in_range (lo hi x : float) : bool :=
  (PrimFloat.leb lo x && PrimFloat.leb x hi)%bool.

(** The three scalings of one raw field value stay within the bounds
    the extreme raw values give. *)
Definition raw_in_range (raw : Z) : bool :=
  (in_range 0 327.675 (temperature_of raw)
   && in_range 0 163.8375 (humidity_of raw)
   && in_range 500 1155.35 (pressure_of raw))%bool.

(** What the decoder does to the collectors once the format tag is 5, as
    a function of the bytes that follow the tag in the backing array:
    each field is published as soon as it is read, and the first slice
    expression out of bounds panics. *)
Definition after_tag (arr : list byte) (m : Metrics)
  : outcome (option error) * Metrics :=
  match arr with
  | b1 :: b2 :: arr2 =>
      let m1 := mkMetrics (numMeasurements m) (numMeasurementsErrs m)
                  (temperature_of (uint16_be b1 b2))
                  (humidityGauge m) (pressureGauge m) (measureTime m) in
      match arr2 with
      | b3 :: b4 :: arr4 =>
          let m2 := mkMetrics (numMeasurements m) (numMeasurementsErrs m)
                      (temperature_of (uint16_be b1 b2))
                      (humidity_of (uint16_be b3 b4))
                      (pressureGauge m) (measureTime m) in
          match arr4 with
          | b5 :: b6 :: _ =>
              (Done None,
               mkMetrics (numMeasurements m) (numMeasurementsErrs m)
                 (temperature_of (uint16_be b1 b2))
                 (humidity_of (uint16_be b3 b4))
                 (pressure_of (uint16_be b5 b6)) (measureTime m))
          | _ => (Panic "slice bounds out of range", m2)
          end
      | _ => (Panic "slice bounds out of range", m1)
      end
  | _ => (Panic "slice bounds out of range", m)
  end.

(** The cycle decodes its buffer without error.  Whether it does is the
    same in every world; the initial world stands for all. *)
Definition succeeds (c : Cycle) : bool :=
  match fst (measure c world0) with
  | Done None => true
  | _ => false
  end.

(** The gauges a cycle leaves, from the initial world. *)
Definition reading (c : Cycle) : float * float * float :=
  gauges (metrics (snd (measure c world0))).

(** The lines the ticker loop prints for a failed cycle. *)
Definition is_error_line (o : Output) : bool :=
  match o with
  | OutError _ => true
  | _ => false
  end.

Definition error_lines (w : World) : nat :=
  List.length (List.filter is_error_line (output w)).

(* ================================================================== *)
(** ** Reading a field: [ParseInt] after [Sprintf("%x")] *)

Lemma byte_val_range (b : byte) : 0 <= byte_val b < 256.
Proof.
  destruct b; (split; [discriminate | reflexivity]).
Qed.

Lemma nibbles (b : byte) :
  0 <= Z.shiftr (byte_val b) 4 < 16 /\
  0 <= Z.land (byte_val b) 15 < 16 /\
  Z.shiftr (byte_val b) 4 * 16 + Z.land (byte_val b) 15 = byte_val b.
Proof.
  pose proof (byte_val_range b) as Hb.
  rewrite (Z.shiftr_div_pow2 _ 4) by lia.
  change 15 with (Z.ones 4). rewrite Z.land_ones by lia.
  change (2 ^ 4) with 16.
  pose proof (Z.div_mod (byte_val b) 16 ltac:(lia)) as Hdm.
  pose proof (Z.mod_pos_bound (byte_val b) 16 ltac:(lia)).
  assert (0 <= byte_val b / 16 < 16).
  { split; [apply Z.div_pos; lia | apply Z.div_lt_upper_bound; lia]. }
  lia.
Qed.

Lemma small_cases (d : Z) :
  0 <= d < 16 ->
  d = 0 \/ d = 1 \/ d = 2 \/ d = 3 \/ d = 4 \/ d = 5 \/ d = 6 \/ d = 7 \/
  d = 8 \/ d = 9 \/ d = 10 \/ d = 11 \/ d = 12 \/ d = 13 \/ d = 14 \/ d = 15.
Proof. lia. Qed.

Ltac each_digit d H :=
  apply small_cases in H;
  repeat (destruct H as [H | H]; [subst d | ]); try subst d.

(** A digit printed by [%x] is read back as itself. *)
Lemma digit_of_hexdigit (d : Z) :
  0 <= d < 16 -> digit_of (char_code (hexdigit d)) = Some d.
Proof. intros H. each_digit d H; reflexivity. Qed.

(** A printed digit is never a sign. *)
Lemma hexdigit_no_sign (d : Z) :
  0 <= d < 16 ->
  Ascii.eqb (hexdigit d) "+" = false /\ Ascii.eqb (hexdigit d) "-" = false.
Proof. intros H. each_digit d H; split; reflexivity. Qed.

Section Base16.

Let cutoff : Z := maxUint64 / 16 + 1.
Let maxVal : Z := 2 ^ 64 - 1.

(** One step of the loop on a printed digit, away from overflow. *)
Lemma ParseUint_loop_digit (d : Z) (s : string) (n : Z) :
  0 <= d < 16 -> 0 <= n < 2 ^ 56 ->
  ParseUint_loop 16 cutoff maxVal (String (hexdigit d) s) n
  = ParseUint_loop 16 cutoff maxVal s (n * 16 + d).
Proof.
  intros Hd Hn. cbn [ParseUint_loop].
  rewrite digit_of_hexdigit by assumption.
  assert (Hc : cutoff = 2 ^ 60) by reflexivity.
  assert (Hm : maxVal = 2 ^ 64 - 1) by reflexivity.
  assert (H56 : 2 ^ 56 = 72057594037927936) by reflexivity.
  assert (H60 : 2 ^ 60 = 1152921504606846976) by reflexivity.
  assert (H64 : 2 ^ 64 = 18446744073709551616) by reflexivity.
  rewrite Hc, Hm. unfold wrap64.
  rewrite (Z.mod_small (n * 16)) by lia.
  rewrite (Z.mod_small (n * 16 + d)) by lia.
  destruct (d >=? 16) eqn:E1; [lia | ].
  destruct (n >=? 2 ^ 60) eqn:E2; [lia | ].
  destruct (n * 16 + d <? n * 16) eqn:E3; [lia | ].
  destruct (n * 16 + d >? 2 ^ 64 - 1) eqn:E4; [lia | ].
  reflexivity.
Qed.

Lemma ParseUint_loop_byte (b : byte) (bs : list byte) (n : Z) :
  0 <= n < 2 ^ 48 ->
  ParseUint_loop 16 cutoff maxVal (Sprintf_x (b :: bs)) n
  = ParseUint_loop 16 cutoff maxVal (Sprintf_x bs) (n * 256 + byte_val b).
Proof.
  intros Hn. destruct (nibbles b) as (Hhi & Hlo & Hsum).
  assert (H48 : 2 ^ 48 = 281474976710656) by reflexivity.
  assert (H56 : 2 ^ 56 = 72057594037927936) by reflexivity.
  cbn [Sprintf_x].
  rewrite ParseUint_loop_digit by lia.
  rewrite ParseUint_loop_digit by lia.
  f_equal. lia.
Qed.

(** The loop over a whole printed field of at most six bytes. *)
Lemma ParseUint_loop_hex (bs : list byte) :
  forall n, 0 <= n -> (n + 1) * 256 ^ Z.of_nat (List.length bs) <= 2 ^ 48 ->
  ParseUint_loop 16 cutoff maxVal (Sprintf_x bs) n = (be_uint bs n, None).
Proof.
  induction bs as [ | b bs IH]; intros n Hn Hb.
  - reflexivity.
  - pose proof (byte_val_range b) as Hv.
    assert (Hp : 0 < 256 ^ Z.of_nat (List.length bs))
      by (apply Z.pow_pos_nonneg; lia).
    assert (Hs : 256 ^ Z.of_nat (List.length (b :: bs))
                 = 256 * 256 ^ Z.of_nat (List.length bs)).
    { cbn [List.length]. rewrite Nat2Z.inj_succ, Z.pow_succ_r by lia. reflexivity. }
    rewrite Hs in Hb.
    rewrite ParseUint_loop_byte by nia.
    unfold be_uint. cbn [fold_left]. apply IH; nia.
Qed.

End Base16.

(** [ParseInt] of a printed two-byte field never fails and yields the
    unsigned big-endian value of the two bytes. *)
Lemma ParseInt_Sprintf_x (hi lo : byte) :
  ParseInt (Sprintf_x [hi; lo]) 16 64 = (uint16_be hi lo, None).
Proof.
  destruct (nibbles hi) as (Hhi & _ & _).
  destruct (hexdigit_no_sign _ Hhi) as (Hplus & Hminus).
  unfold ParseInt. cbn [Sprintf_x]. rewrite Hplus, Hminus. cbn [orb negb andb].
  change (String (hexdigit (Z.shiftr (byte_val hi) 4))
            (String (hexdigit (Z.land (byte_val hi) 15))
               (String (hexdigit (Z.shiftr (byte_val lo) 4))
                  (String (hexdigit (Z.land (byte_val lo) 15)) EmptyString))))
    with (Sprintf_x [hi; lo]).
  assert (HU : ParseUint (Sprintf_x [hi; lo]) 16 64 = (uint16_be hi lo, None)).
  { unfold ParseUint. cbn [Sprintf_x].
    change (String (hexdigit (Z.shiftr (byte_val hi) 4))
              (String (hexdigit (Z.land (byte_val hi) 15))
                 (String (hexdigit (Z.shiftr (byte_val lo) 4))
                    (String (hexdigit (Z.land (byte_val lo) 15)) EmptyString))))
      with (Sprintf_x [hi; lo]).
    change ((2 <=? 16) && (16 <=? 36)) with true.
    change (64 =? 0) with false. cbv iota.
    change ((64 <? 0) || (64 >? 64)) with false.
    cbn [negb].
    rewrite ParseUint_loop_hex; [reflexivity | lia | vm_compute; discriminate]. }
  rewrite HU. change (64 =? 0) with false. cbv iota.
  pose proof (byte_val_range hi). pose proof (byte_val_range lo).
  assert (H63 : 2 ^ (64 - 1) = 9223372036854775808) by reflexivity.
  rewrite H63. unfold uint16_be.
  destruct (_ >=? _) eqn:E; [lia | reflexivity].
Qed.

(* ================================================================== *)
(** ** What [parsePacket] does *)

Lemma byte_val_5 (b : byte) : byte_val b = 5 -> b = x05.
Proof. destruct b; (reflexivity || discriminate). Qed.

(** A buffer whose backing array holds a format tag of 5 and six more
    bytes: all three fields are read unsigned and published. *)
Lemma parsePacket_format5 (b1 b2 b3 b4 b5 b6 : byte) (rest sp : list byte)
    (hd tl : list byte) (w : World) :
  hd ++ tl = x05 :: b1 :: b2 :: b3 :: b4 :: b5 :: b6 :: rest ->
  hd <> [] ->
  parsePacket (mkSlice hd (tl ++ sp)) w
  = (Done None,
     decoded (mkSlice hd (tl ++ sp))
       (temperature_of (uint16_be b1 b2))
       (humidity_of (uint16_be b3 b4))
       (pressure_of (uint16_be b5 b6)) w).
Proof.
  intros Harr Hne.
  assert (Hcap : (7 <= cap (mkSlice hd (tl ++ sp)))%nat).
  { unfold cap. cbn [elems spare]. rewrite length_app, Nat.add_assoc, <- length_app, Harr.
    cbn [List.length]. lia. }
  assert (Hfull : hd ++ tl ++ sp
                  = x05 :: b1 :: b2 :: b3 :: b4 :: b5 :: b6 :: rest ++ sp).
  { rewrite app_assoc, Harr. reflexivity. }
  assert (H0 : nth_error hd 0 = Some x05).
  { destruct hd as [ | b hd']; [congruence | ]. cbn in Harr. injection Harr as -> _.
    reflexivity. }
  unfold parsePacket, bind, print, index, slice_expr. cbn [elems spare].
  rewrite H0. unfold ret at 1. cbn [byte_val Byte.to_N Z.of_N Z.eqb Pos.eqb negb].
  rewrite Hfull.
  replace ((1 <=? 3)%nat && (3 <=? cap (mkSlice hd (tl ++ sp)))%nat) with true
    by (symmetry; apply andb_true_intro; split; apply Nat.leb_le; lia).
  replace ((3 <=? 5)%nat && (5 <=? cap (mkSlice hd (tl ++ sp)))%nat) with true
    by (symmetry; apply andb_true_intro; split; apply Nat.leb_le; lia).
  replace ((5 <=? 7)%nat && (7 <=? cap (mkSlice hd (tl ++ sp)))%nat) with true
    by (symmetry; apply andb_true_intro; split; apply Nat.leb_le; lia).
  unfold ret. cbn [Nat.sub firstn skipn elems].
  rewrite !ParseInt_Sprintf_x.
  reflexivity.
Qed.

Lemma parsePacket_other_format (buf : slice) (b : byte) (w : World) :
  hd_error (elems buf) = Some b -> byte_val b <> 5 ->
  parsePacket buf w = (Done (Some ErrInvalidFormat), rejected buf w).
Proof.
  intros Hhd Hb. destruct buf as [[ | b0 l] sp]; [discriminate | ].
  injection Hhd as ->.
  unfold parsePacket, bind, print, index. cbn [elems nth_error]. unfold ret at 1.
  destruct (byte_val b =? 5) eqn:E; [apply Z.eqb_eq in E; contradiction | ].
  reflexivity.
Qed.

Lemma parsePacket_empty (sp : list byte) (w : World) :
  parsePacket (mkSlice [] sp) w
  = (Panic "index out of range", rejected (mkSlice [] sp) w).
Proof. reflexivity. Qed.

Lemma seven_bytes (l : list byte) :
  (7 <= List.length l)%nat ->
  exists b0 b1 b2 b3 b4 b5 b6 rest, l = b0 :: b1 :: b2 :: b3 :: b4 :: b5 :: b6 :: rest.
Proof.
  intros H.
  do 7 (destruct l as [ | ? l]; [cbn in H; lia | ]).
  repeat eexists.
Qed.

(** On a buffer of at least seven bytes the decoder returns, and the
    format tag alone decides how. *)
Lemma parsePacket_long (buf : slice) (w : World) :
  (7 <= len buf)%nat ->
  parsePacket buf w
  = if byte_val (byte_at buf 0) =? 5
    then (Done None,
          decoded buf
            (temperature_of (uint16_be (byte_at buf 1) (byte_at buf 2)))
            (humidity_of (uint16_be (byte_at buf 3) (byte_at buf 4)))
            (pressure_of (uint16_be (byte_at buf 5) (byte_at buf 6))) w)
    else (Done (Some ErrInvalidFormat), rejected buf w).
Proof.
  intros Hlen. destruct buf as [l sp]. unfold len in Hlen. cbn [elems] in Hlen.
  destruct (seven_bytes l Hlen) as (b0 & b1 & b2 & b3 & b4 & b5 & b6 & rest & ->).
  unfold byte_at. cbn [elems nth].
  destruct (byte_val b0 =? 5) eqn:E.
  - apply Z.eqb_eq, byte_val_5 in E. subst b0.
    apply (parsePacket_format5 b1 b2 b3 b4 b5 b6 rest sp _ []).
    + apply app_nil_r.
    + discriminate.
  - apply (parsePacket_other_format _ b0); [reflexivity | ].
    intros H. apply Z.eqb_eq in H. congruence.
Qed.

(* ================================================================== *)
(** ** What one scan does *)

Lemma callback_spec (d : ScanResult) (stop : option error) (l : locals) (w : World) :
  callback d stop l w
  = (Done (after_device d stop l),
     mkWorld (metrics w) (device_output d ++ output w)).
Proof.
  destruct l as [buf stopScanErr].
  unfold callback, after_device, device_output, qualifies, bind, print.
  destruct (Contains (LocalName d) "Ruuvi"); cbn [negb]; [ | reflexivity].
  destruct (ManufacturerData d !! 1177%N) as [buffer | ]; [ | reflexivity].
  destruct stop; reflexivity.
Qed.

Lemma Scan_deliver_spec (ds : list (ScanResult * option error)) :
  forall (l : locals) (w : World),
  Scan_deliver ds l w = (Done (after_scan ds l), scanned ds w).
Proof.
  induction ds as [ | [d stop] ds IH]; intros l w.
  - destruct w. reflexivity.
  - cbn [Scan_deliver]. unfold bind. rewrite callback_spec, IH.
    unfold scanned. cbn [metrics output scan_output fst after_scan fold_left snd].
    rewrite <- app_assoc. reflexivity.
Qed.

Lemma scan_output_lines (ds : list (ScanResult * option error)) :
  Forall scan_line (scan_output ds).
Proof.
  induction ds as [ | [d stop] ds IH]; cbn [scan_output fst].
  - constructor.
  - apply Forall_app. split; [exact IH | ].
    unfold device_output. destruct (qualifies d); repeat constructor.
Qed.

(** [copy] keeps the length and the capacity of its destination. *)
Lemma copy_len (dst : slice) (src : list byte) :
  len (copy dst src) = len dst /\ spare (copy dst src) = spare dst.
Proof.
  split; [ | reflexivity].
  unfold copy, len. cbn [elems].
  rewrite length_app, length_firstn, length_skipn.
  fold (len dst). lia.
Qed.

Lemma after_scan_len (ds : list (ScanResult * option error)) :
  forall l : locals,
  len (fst (after_scan ds l)) = len (fst l) /\
  spare (fst (after_scan ds l)) = spare (fst l).
Proof.
  induction ds as [ | [d stop] ds IH]; intros l; [split; reflexivity | ].
  unfold after_scan. cbn [fold_left fst snd].
  specialize (IH (after_device d stop l)). unfold after_scan in IH.
  destruct IH as [IH1 IH2]. rewrite IH1, IH2.
  unfold after_device. destruct (qualifies d); [ | split; reflexivity].
  cbn [fst]. apply copy_len.
Qed.

Lemma scan_buf_len (c : Cycle) : len (scan_buf c) = 32%nat /\ spare (scan_buf c) = [].
Proof. unfold scan_buf. apply (after_scan_len (found c) (make 32, None)). Qed.

(** [measure] always returns, and records its duration last. *)
Lemma measure_spec (c : Cycle) (w : World) :
  measure c w
  = (Done (fst (cycle_result c w)),
     Observe_measureTime (elapsed c) (snd (cycle_result c w))).
Proof.
  unfold measure, defer, Scan, cycle_result, scan_stop, scan_buf, bind.
  rewrite Scan_deliver_spec. unfold ret at 1.
  destruct (after_scan (found c) (make 32, None)) as [buf stopScanErr] eqn:El.
  cbn [fst snd].
  destruct (scan_err c) as [e | ]; [reflexivity | ].
  destruct stopScanErr as [e | ]; [reflexivity | ].
  unfold print at 1. cbn [metrics output scanned].
  assert (Hlen : (7 <= len buf)%nat).
  { pose proof (scan_buf_len c) as [H _]. unfold scan_buf in H. rewrite El in H.
    cbn [fst] in H. lia. }
  rewrite (parsePacket_long buf _ Hlen).
  destruct (byte_val (byte_at buf 0) =? 5); reflexivity.
Qed.

(** A cycle that fails leaves every collector as it was; the deferred
    observation comes after. *)
Lemma cycle_failure_metrics (c : Cycle) (w : World) (e : error) :
  fst (cycle_result c w) = Some e ->
  metrics (snd (cycle_result c w)) = metrics w.
Proof.
  unfold cycle_result.
  destruct (scan_err c); [reflexivity | ].
  destruct (scan_stop c); [reflexivity | ].
  destruct (byte_val (byte_at (scan_buf c) 0) =? 5); [discriminate | reflexivity].
Qed.

(** No cycle touches the two counters or the histogram before the
    deferred observation. *)
Lemma cycle_frame (c : Cycle) (w : World) :
  numMeasurements (metrics (snd (cycle_result c w))) = numMeasurements (metrics w) /\
  numMeasurementsErrs (metrics (snd (cycle_result c w))) = numMeasurementsErrs (metrics w) /\
  measureTime (metrics (snd (cycle_result c w))) = measureTime (metrics w).
Proof.
  unfold cycle_result.
  destruct (scan_err c); [repeat split | ].
  destruct (scan_stop c); [repeat split | ].
  destruct (byte_val (byte_at (scan_buf c) 0) =? 5); repeat split.
Qed.

Lemma measure_returns (c : Cycle) (w : World) :
  exists r w',
    measure c w = (Done r, w') /\
    measureTime (metrics w') = elapsed c :: measureTime (metrics w).
Proof.
  exists (fst (cycle_result c w)), (Observe_measureTime (elapsed c) (snd (cycle_result c w))).
  split; [apply measure_spec | ].
  cbn [Observe_measureTime metrics measureTime].
  destruct (cycle_frame c w) as (_ & _ & ->). reflexivity.
Qed.

(** The loop survives every tick, whatever its cycle met. *)
Lemma ticker_loop_spec (ticks : list Cycle) :
  forall w : World, ticker_loop ticks w = (Done tt, fold_left after_tick ticks w).
Proof.
  induction ticks as [ | c ticks IH]; intros w; [reflexivity | ].
  cbn [ticker_loop fold_left]. unfold bind at 1 2. rewrite measure_spec.
  unfold after_tick.
  destruct (fst (cycle_result c w)) as [e | ].
  - unfold print. apply IH.
  - unfold ret at 1. rewrite IH. destruct (Observe_measureTime _ _). reflexivity.
Qed.

Lemma after_tick_measureTime (w : World) (c : Cycle) :
  measureTime (metrics (after_tick w c)) = elapsed c :: measureTime (metrics w).
Proof.
  unfold after_tick. destruct (cycle_frame c w) as (_ & _ & H).
  destruct (fst (cycle_result c w)); cbn [Observe_measureTime metrics measureTime];
    rewrite H; reflexivity.
Qed.

Lemma ticks_measureTime (ticks : list Cycle) :
  forall w : World,
  measureTime (metrics (fold_left after_tick ticks w))
  = rev (map elapsed ticks) ++ measureTime (metrics w).
Proof.
  induction ticks as [ | c ticks IH]; intros w; [reflexivity | ].
  cbn [fold_left map rev]. rewrite IH, after_tick_measureTime, <- app_assoc.
  reflexivity.
Qed.


(* ================================================================== *)
(** ** The decoder *)

Lemma int16_be_low (hi lo : byte) :
  byte_val hi < 128 -> int16_be hi lo = uint16_be hi lo.
Proof.
  intros H. unfold int16_be, uint16_be.
  pose proof (byte_val_range lo).
  destruct (_ <? _) eqn:E; [reflexivity | lia].
Qed.

Lemma first_byte_5 (buf : slice) :
  hd_error (elems buf) = Some x05 -> (byte_val (byte_at buf 0) =? 5) = true.
Proof.
  unfold byte_at. destruct (elems buf); [discriminate | ].
  intros H. injection H as ->. reflexivity.
Qed.

(** C1, as amended.  On every buffer of at least seven bytes whose first
    byte is 5 the decoder returns without error and sets the humidity
    gauge to the big-endian UNSIGNED field of bytes 3-4 times 0.0025 and
    the pressure gauge to the big-endian UNSIGNED field of bytes 5-6 plus
    50000, over 100; and when the temperature field has its high bit
    clear, where the signed and the unsigned reading agree, it sets the
    temperature gauge to the big-endian field of bytes 1-2 times 0.005. *)
Theorem C1_fields_unsigned (buf : slice) (w : World) :
  hd_error (elems buf) = Some x05 ->
  (7 <= len buf)%nat ->
  exists w',
    parsePacket buf w = (Done None, w') /\
    (byte_val (byte_at buf 1) < 128 ->
     tempGauge (metrics w')
     = (float64 (int16_be (byte_at buf 1) (byte_at buf 2)) * 0.005)%float) /\
    humidityGauge (metrics w')
    = (float64 (uint16_be (byte_at buf 3) (byte_at buf 4)) * 0.0025)%float /\
    pressureGauge (metrics w')
    = ((float64 (uint16_be (byte_at buf 5) (byte_at buf 6)) + 50000) / 100)%float.
Proof.
  intros H5 Hlen.
  rewrite (parsePacket_long buf w Hlen), (first_byte_5 buf H5).
  eexists. split; [reflexivity | ]. split; [ | split; reflexivity].
  intros Hlow. rewrite (int16_be_low _ _ Hlow). reflexivity.
Qed.

(** The sample payload, whose temperature field is [01 F4], and the
    payload with a temperature field of [FF FF], of which humidity and
    pressure are decoded all the same. *)
Lemma C1_fields_unsigned_witness :
  decodes_to (mkSlice sample_payload []) world0 2.5 25 1000 /\
  exists w',
    parsePacket (mkSlice high_bit_payload []) world0 = (Done None, w') /\
    humidityGauge (metrics w') = 25%float /\
    pressureGauge (metrics w') = 1000%float.
Proof.
  split.
  - destruct (C1_fields_unsigned (mkSlice sample_payload []) world0)
      as (w' & Hp & Ht & Hh & Hpr); [reflexivity | cbn; lia | ].
    exists w'. split; [exact Hp | ]. split; [ | split; [exact Hh | exact Hpr]].
    apply Ht. reflexivity.
  - destruct (C1_fields_unsigned (mkSlice high_bit_payload []) world0)
      as (w' & Hp & _ & Hh & Hpr); [reflexivity | cbn; lia | ].
    exists w'. split; [exact Hp | split; [exact Hh | exact Hpr]].
Defined.

(** C1, as stated, fails on [05 FF FF 27 10 C3 50]: the decoder reads the
    temperature field [FF FF] as 65535 and publishes 327.675, not the
    -0.005 of the signed reading; and it reads the pressure field [C3 50]
    as 50000 and publishes 1000, not the 344.64 of the signed reading. *)
Lemma C1_signed_reading_refuted :
  decodes_to (mkSlice high_bit_payload []) world0 327.675 25 1000 /\
  (float64 (int16_be xff xff) * 0.005)%float = (-0.005)%float /\
  ((float64 (int16_be xc3 x50) + 50000) / 100)%float = 344.64%float /\
  PrimFloat.eqb 327.675 (float64 (int16_be xff xff) * 0.005) = false /\
  PrimFloat.eqb 1000 ((float64 (int16_be xc3 x50) + 50000) / 100) = false.
Proof.
  split.
  - unfold decodes_to. rewrite parsePacket_long by (cbn; lia).
    eexists. split; [reflexivity | ]. repeat split.
  - repeat split.
Qed.

(** C5.  Decoding [05 01 F4 27 10 C3 50] succeeds and yields 2.5 degrees,
    25 percent and 1000 hPa, in any world and whatever follows the seven
    bytes in the backing array. *)
Theorem C5_sample_decodes (sp : list byte) (w : World) :
  decodes_to (mkSlice sample_payload sp) w 2.5 25 1000 /\
  uint16_be x01 xf4 = 500 /\ uint16_be x27 x10 = 10000 /\ uint16_be xc3 x50 = 50000.
Proof.
  split; [ | repeat split].
  unfold decodes_to. rewrite parsePacket_long by (cbn; lia).
  eexists. split; [reflexivity | ]. repeat split.
Qed.

(** C6.  On every buffer whose first byte is not 5 the decoder returns
    the invalid-format error, changes no collector, and prints nothing
    but the dump of the buffer: no field is read. *)
Theorem C6_other_format_rejected (buf : slice) (b : byte) (w : World) :
  hd_error (elems buf) = Some b ->
  byte_val b <> 5 ->
  exists w',
    parsePacket buf w = (Done (Some ErrInvalidFormat), w') /\
    metrics w' = metrics w /\
    output w' = OutData (len buf) (elems buf) :: output w.
Proof.
  intros Hhd Hb. exists (rejected buf w).
  split; [exact (parsePacket_other_format buf b w Hhd Hb) | split; reflexivity].
Qed.

(** A payload tagged 3. *)
Lemma C6_other_format_rejected_witness :
  exists w',
    parsePacket (mkSlice [x03; x01; xf4; x27; x10; xc3; x50] []) world0
    = (Done (Some ErrInvalidFormat), w') /\
    metrics w' = metrics world0 /\
    output w' = [OutData 7 [x03; x01; xf4; x27; x10; xc3; x50]].
Proof.
  apply (C6_other_format_rejected
           (mkSlice [x03; x01; xf4; x27; x10; xc3; x50] []) x03 world0).
  - reflexivity.
  - discriminate.
Defined.

(** C3, on the code.  On a buffer shorter than seven bytes whose first
    byte is 5 the decoder never returns an error value: it panics on a
    slice expression when the capacity is below seven, and when the
    backing array is long enough it decodes the bytes beyond the length
    of the buffer. *)
Theorem C3_short_buffer_panics (buf : slice) (w : World) :
  hd_error (elems buf) = Some x05 ->
  (len buf < 7)%nat ->
  fst (parsePacket buf w)
  = if (cap buf <? 7)%nat then Panic "slice bounds out of range" else Done None.
Proof.
  intros Hhd Hlen. destruct buf as [l sp].
  destruct l as [ | b0 l]; [discriminate | ]. injection Hhd as ->.
  destruct (cap (mkSlice (x05 :: l) sp) <? 7)%nat eqn:Ecap.
  - apply Nat.ltb_lt in Ecap.
    assert (Hc : cap (mkSlice (x05 :: l) sp) = S (List.length (l ++ sp))).
    { unfold cap. cbn [elems spare List.length]. rewrite length_app. reflexivity. }
    unfold parsePacket, bind, print, index, slice_expr.
    rewrite Hc in *. cbn [elems spare nth_error app]. unfold ret at 1.
    cbn [byte_val Byte.to_N Z.of_N Z.eqb Pos.eqb negb].
    remember (l ++ sp) as arr eqn:Harr. clear Harr Hc Hlen.
    do 6 (destruct arr as [ | ? arr];
          [ repeat (cbn [List.length Nat.leb andb Nat.sub firstn skipn elems fst];
                    unfold ret, panic, Set_tempGauge, Set_humidityGauge, update;
                    rewrite ?ParseInt_Sprintf_x);
            reflexivity | ]).
    cbn [List.length] in Ecap. lia.
  - apply Nat.ltb_ge in Ecap.
    assert (Hfull : (7 <= List.length ((x05 :: l) ++ sp))%nat).
    { unfold cap in Ecap. cbn [elems spare] in Ecap. rewrite length_app. exact Ecap. }
    destruct (seven_bytes _ Hfull) as (b0 & b1 & b2 & b3 & b4 & b5 & b6 & rest & Heq).
    assert (b0 = x05) by (cbn in Heq; congruence). subst b0.
    rewrite <- (app_nil_r sp).
    rewrite (parsePacket_format5 b1 b2 b3 b4 b5 b6 rest [] (x05 :: l) sp w Heq);
      [reflexivity | discriminate].
Qed.

(** The one-byte buffer [05] with no spare capacity. *)
Lemma C3_short_buffer_panics_witness :
  fst (parsePacket (mkSlice [x05] []) world0) = Panic "slice bounds out of range".
Proof.
  apply (C3_short_buffer_panics (mkSlice [x05] []) world0).
  - reflexivity.
  - cbn. lia.
Defined.






(* ================================================================== *)
(** ** One cycle *)

(** C2, on the code.  No cycle increments a counter: after a cycle that
    decodes [measurement_count] is what it was, and after a cycle that
    fails (at the start of the scan, at its stop, or in the decoder)
    [measurement_err_count] is what it was.  The gauges do keep their
    values through a failed cycle. *)
Theorem C2_counters_never_incremented :
  (fst (measure good_cycle world0) = Done None /\
   numMeasurements (metrics (snd (measure good_cycle world0))) = 0%nat) /\
  (fst (measure start_failed_cycle world0)
   = Done (Some (ErrScanning (ErrAdapter "start failed"))) /\
   numMeasurementsErrs (metrics (snd (measure start_failed_cycle world0))) = 0%nat) /\
  (fst (measure stop_failed_cycle world0)
   = Done (Some (ErrStoppingScan (ErrAdapter "stop failed"))) /\
   numMeasurementsErrs (metrics (snd (measure stop_failed_cycle world0))) = 0%nat) /\
  (fst (measure bad_format_cycle world0)
   = Done (Some (ErrParsingPacket ErrInvalidFormat)) /\
   numMeasurementsErrs (metrics (snd (measure bad_format_cycle world0))) = 0%nat) /\
  (forall (c : Cycle) (w : World),
     numMeasurements (metrics (snd (measure c w))) = numMeasurements (metrics w) /\
     numMeasurementsErrs (metrics (snd (measure c w))) = numMeasurementsErrs (metrics w) /\
     match fst (measure c w) with
     | Done (Some _) =>
         tempGauge (metrics (snd (measure c w))) = tempGauge (metrics w) /\
         humidityGauge (metrics (snd (measure c w))) = humidityGauge (metrics w) /\
         pressureGauge (metrics (snd (measure c w))) = pressureGauge (metrics w)
     | _ => True
     end).
Proof.
  assert (Hall : forall (c : Cycle) (w : World),
     numMeasurements (metrics (snd (measure c w))) = numMeasurements (metrics w) /\
     numMeasurementsErrs (metrics (snd (measure c w))) = numMeasurementsErrs (metrics w) /\
     match fst (measure c w) with
     | Done (Some _) =>
         tempGauge (metrics (snd (measure c w))) = tempGauge (metrics w) /\
         humidityGauge (metrics (snd (measure c w))) = humidityGauge (metrics w) /\
         pressureGauge (metrics (snd (measure c w))) = pressureGauge (metrics w)
     | _ => True
     end).
  { intros c w. rewrite measure_spec. cbn [fst snd Observe_measureTime metrics].
    destruct (cycle_frame c w) as (H1 & H2 & _).
    cbn [numMeasurements numMeasurementsErrs tempGauge humidityGauge pressureGauge].
    split; [exact H1 | split; [exact H2 | ]].
    destruct (fst (cycle_result c w)) as [e | ] eqn:He; [ | exact I].
    rewrite (cycle_failure_metrics c w e He). repeat split. }
  split; [ | split; [ | split; [ | split; [ | exact Hall]]]]; split;
    try (rewrite measure_spec; vm_compute; reflexivity);
    try (destruct (Hall good_cycle world0) as (H & _); exact H);
    try (match goal with
         | |- numMeasurementsErrs (metrics (snd (measure ?c _))) = _ =>
             destruct (Hall c world0) as (_ & H & _); exact H
         end).
Qed.

(** Once a stop request has failed, [stopScanErr] holds a stop error to
    the end of the scan: nothing resets it. *)
Lemma after_scan_stop (ds : list (ScanResult * option error)) :
  forall l : locals,
  existsb stop_fails ds = true \/
    (exists cause, snd l = Some (ErrStoppingScan cause)) ->
  exists cause,
    snd (after_scan ds l) = Some (ErrStoppingScan cause) /\
    (In cause (stop_errors ds) \/ snd l = Some (ErrStoppingScan cause)).
Proof.
  induction ds as [ | [d stop] ds IH]; intros l H.
  - destruct H as [H | [cause H]]; [discriminate | ].
    exists cause. split; [exact H | right; exact H].
  - unfold after_scan. cbn [fold_left fst snd]. fold (after_scan ds (after_device d stop l)).
    cbn [existsb stop_errors] in *. unfold stop_fails in H. cbn [fst snd] in H.
    unfold after_device.
    destruct (qualifies d) as [buffer | ]; [destruct stop as [e | ] | ].
    + destruct (IH (copy (fst l) buffer, Some (ErrStoppingScan e))) as (cause & Hc & Hin).
      { right. exists e. reflexivity. }
      exists cause. split; [exact Hc | left].
      destruct Hin as [Hin | Hin]; [right; exact Hin | left].
      cbn [snd] in Hin. congruence.
    + destruct (IH (copy (fst l) buffer, snd l)) as (cause & Hc & Hin).
      { destruct H as [H | H]; [left; exact H | right; exact H]. }
      exists cause. split; [exact Hc | exact Hin].
    + destruct (IH l) as (cause & Hc & Hin).
      { destruct H as [H | H]; [left; exact H | right; exact H]. }
      exists cause. split; [exact Hc | exact Hin].
Qed.

Lemma scan_output_no_data (ds : list (ScanResult * option error)) (n : nat) (b : list byte) :
  ~ In (OutData n b) (scan_output ds).
Proof.
  intros Hin. pose proof (scan_output_lines ds) as Hall.
  rewrite Stdlib.Lists.List.Forall_forall in Hall. exact (Hall _ Hin).
Qed.

(** C7, as amended.  In every cycle in which a device passed the filters
    but the request to stop the scan failed, [measure] returns an error,
    the three gauges keep their values, and the decoder is not called: the
    cycle prints no dump of a buffer, which is the decoder's first
    statement.  The error is the stop error the adapter gave, wrapped as
    "stopping scan", when [adapter.Scan] itself returns nil; when
    [adapter.Scan] returns an error as well, it is that error, wrapped as
    "scanning". *)
Theorem C7_stop_failure_discards_match (c : Cycle) (w : World) :
  existsb stop_fails (found c) = true ->
  exists err w' out,
    measure c w = (Done (Some err), w') /\
    match scan_err c with
    | None => exists cause, err = ErrStoppingScan cause /\ In cause (stop_errors (found c))
    | Some e => err = ErrScanning e
    end /\
    tempGauge (metrics w') = tempGauge (metrics w) /\
    humidityGauge (metrics w') = humidityGauge (metrics w) /\
    pressureGauge (metrics w') = pressureGauge (metrics w) /\
    output w' = out ++ output w /\
    forall n b, ~ In (OutData n b) out.
Proof.
  intros Hstop.
  destruct (after_scan_stop (found c) (make 32, None) (or_introl Hstop))
    as (cause & Hc & Hin).
  destruct Hin as [Hin | Hin]; [ | discriminate].
  exists (match scan_err c with
          | None => ErrStoppingScan cause
          | Some e => ErrScanning e
          end),
    (Observe_measureTime (elapsed c) (scanned (found c) w)),
    (scan_output (found c)).
  split.
  - rewrite measure_spec. unfold cycle_result, scan_stop.
    rewrite Hc. destruct (scan_err c); reflexivity.
  - split.
    + destruct (scan_err c); [reflexivity | ].
      exists cause. split; [reflexivity | exact Hin].
    + repeat split. apply scan_output_no_data.
Qed.

(** A phone, then the tag, whose stop request fails; the scan returns
    nil. *)
Lemma C7_stop_failure_discards_match_witness :
  exists err w' out,
    measure stop_failed_cycle world0 = (Done (Some err), w') /\
    match scan_err stop_failed_cycle with
    | None =>
        exists cause,
          err = ErrStoppingScan cause /\ In cause (stop_errors (found stop_failed_cycle))
    | Some e => err = ErrScanning e
    end /\
    tempGauge (metrics w') = tempGauge (metrics world0) /\
    humidityGauge (metrics w') = humidityGauge (metrics world0) /\
    pressureGauge (metrics w') = pressureGauge (metrics world0) /\
    output w' = out ++ output world0 /\
    forall n b, ~ In (OutData n b) out.
Proof.
  apply (C7_stop_failure_discards_match stop_failed_cycle world0).
  vm_compute. reflexivity.
Defined.

(** C7, as stated, fails on a cycle in which the tag is captured, its
    stop request fails and [adapter.Scan] then returns an error: the
    cycle returns the scan's error, not the stop error. *)
Lemma C7_scan_error_returned_instead :
  existsb stop_fails (found stop_and_scan_failed_cycle) = true /\
  stop_errors (found stop_and_scan_failed_cycle) = [ErrAdapter "stop failed"] /\
  fst (measure stop_and_scan_failed_cycle world0)
  = Done (Some (ErrScanning (ErrAdapter "lost"))).
Proof.
  split; [vm_compute; reflexivity | split; [vm_compute; reflexivity | ]].
  rewrite measure_spec. vm_compute. reflexivity.
Qed.

(** C9.  Every call of [measure] returns and adds exactly one
    observation, its own duration, to the histogram: when the scan fails
    to start, when the stop fails, when the decoder rejects the buffer and
    when the cycle succeeds. *)
Theorem C9_duration_always_observed (c : Cycle) (w : World) :
  exists r w',
    measure c w = (Done r, w') /\
    measureTime (metrics w') = elapsed c :: measureTime (metrics w).
Proof. exact (measure_returns c w). Qed.

(** The callback leaves the locals alone on a device that fails a
    filter. *)
Lemma after_scan_silent (pre : list (ScanResult * option error)) (l : locals) :
  Forall (fun x => qualifies (fst x) = None) pre -> after_scan pre l = l.
Proof.
  induction 1 as [ | [d stop] pre Hd _ IH]; [reflexivity | ].
  unfold after_scan. cbn [fold_left fst snd]. unfold after_device.
  cbn [fst] in Hd. rewrite Hd. exact IH.
Qed.







(* ================================================================== *)
(** ** The scheduler *)

(** C8.  Once the adapter is enabled, [main] runs one cycle before the
    ticker exists.  If that cycle fails, the process exits through
    [log.Fatal] with no further cycle, whatever ticks would have come.
    If it succeeds, then for any number of ticks and whatever their
    cycles meet the loop is still running after them: each tick ran one
    cycle, a failed one is printed and nothing more, and no tick ends the
    process.  The interval is positive, as [time.NewTicker] requires. *)
Theorem C8_startup_fatal_then_tolerant
    (measureEvery : Z) (first : Cycle) (ticks : list Cycle) (w : World) :
  0 < measureEvery ->
  exists r w1,
    measure first w = (Done r, w1) /\
    measureTime (metrics w1) = elapsed first :: measureTime (metrics w) /\
    match r with
    | Some e =>
        main measureEvery None first ticks w
        = (Exit 1, mkWorld (metrics w1) (OutFatal e :: output w1))
    | None =>
        main measureEvery None first ticks w
        = (Done tt,
           fold_left after_tick ticks
             (mkWorld (metrics w1) (OutStartingTicker :: output w1))) /\
        measureTime
          (metrics (fold_left after_tick ticks
                      (mkWorld (metrics w1) (OutStartingTicker :: output w1))))
        = rev (map elapsed ticks) ++ elapsed first :: measureTime (metrics w)
    end.
Proof.
  intros Hpos.
  destruct (measure_returns first w) as (r & w1 & Hm & Ht).
  exists r, w1. split; [exact Hm | split; [exact Ht | ]].
  unfold main, bind. rewrite Hm.
  destruct r as [e | ]; [reflexivity | ].
  unfold NewTicker. destruct (measureEvery <=? 0) eqn:E; [lia | ].
  unfold ret at 1. unfold print at 1.
  rewrite ticker_loop_spec, ticks_measureTime. cbn [metrics].
  rewrite Ht. split; reflexivity.
Qed.

(** Five minutes between cycles; the startup cycle succeeds, then one
    tick fails at the stop of its scan and the next at the start of its
    scan: the loop is still running after both. *)
Lemma C8_startup_fatal_then_tolerant_witness :
  0 < 300000000000 /\
  exists w',
    main 300000000000 None good_cycle [stop_failed_cycle; start_failed_cycle] world0
    = (Done tt, w') /\
    measureTime (metrics w') = [1; 4; 3]%float.
Proof.
  split; [reflexivity | ].
  destruct (C8_startup_fatal_then_tolerant 300000000000 good_cycle
              [stop_failed_cycle; start_failed_cycle] world0 eq_refl)
    as (r & w1 & Hm & Ht & H).
  rewrite measure_spec in Hm. injection Hm as <- <-.
  destruct H as [H1 H2]. eexists. split; [exact H1 | exact H2].
Defined.

(* ================================================================== *)
(** ** More on the decoder *)

(** With a format tag of 5, the outcome of the decoder and the
    collectors it leaves are those of [after_tag] on the rest of the
    backing array. *)
Lemma parsePacket_after_tag (l sp : list byte) (w : World) :
  fst (parsePacket (mkSlice (x05 :: l) sp) w) = fst (after_tag (l ++ sp) (metrics w)) /\
  metrics (snd (parsePacket (mkSlice (x05 :: l) sp) w))
  = snd (after_tag (l ++ sp) (metrics w)).
Proof.
  assert (Hc : cap (mkSlice (x05 :: l) sp) = S (List.length (l ++ sp))).
  { unfold cap. cbn [elems spare List.length]. rewrite length_app. reflexivity. }
  unfold parsePacket, bind, print, index, slice_expr.
  rewrite Hc. cbn [elems spare nth_error app]. unfold ret at 1.
  cbn [byte_val Byte.to_N Z.of_N Z.eqb Pos.eqb negb].
  remember (l ++ sp) as arr eqn:Harr. clear Harr Hc.
  destruct w as [m out].
  do 6 (try (destruct arr as [ | ? arr]));
    repeat (cbn [List.length Nat.leb andb Nat.sub firstn skipn elems fst snd metrics];
            unfold ret, panic, Set_tempGauge, Set_humidityGauge, Set_pressureGauge,
              update, print;
            rewrite ?ParseInt_Sprintf_x);
    cbn [after_tag fst snd metrics output]; split; reflexivity.
Qed.

Lemma after_tag_fst (arr : list byte) (m : Metrics) :
  fst (after_tag arr m)
  = if (List.length arr <? 6)%nat then Panic "slice bounds out of range" else Done None.
Proof. do 6 (try (destruct arr as [ | ? arr])); reflexivity. Qed.


(** X1.  How a call of the decoder ends is decided by the buffer alone,
    in four ways and no other: a panic on [buf[0]] when the buffer is
    empty; the invalid-format error when its first byte is not 5; a panic
    on a slice expression when the first byte is 5 and the capacity is
    below 7; success otherwise.  The three conversion errors of the
    source are never returned. *)
Theorem parsePacket_outcome (buf : slice) (w : World) :
  fst (parsePacket buf w)
  = match elems buf with
    | [] => Panic "index out of range"
    | b :: _ =>
        if byte_val b =? 5
        then if (cap buf <? 7)%nat
             then Panic "slice bounds out of range"
             else Done None
        else Done (Some ErrInvalidFormat)
    end.
Proof.
  destruct buf as [[ | b l] sp]; cbn [elems].
  - rewrite parsePacket_empty. reflexivity.
  - destruct (byte_val b =? 5) eqn:E.
    + apply Z.eqb_eq, byte_val_5 in E. subst b.
      destruct (parsePacket_after_tag l sp w) as [-> _].
      rewrite after_tag_fst. unfold cap. cbn [elems spare List.length].
      rewrite length_app. reflexivity.
    + rewrite (parsePacket_other_format _ b); [reflexivity | reflexivity | ].
      intros H. apply Z.eqb_eq in H. congruence.
Qed.

(** X2.  The decoder publishes each field before it reads the next, so a
    panic on a buffer too short can leave the gauges half updated: with a
    first byte of 5 and a capacity below 7, the temperature gauge is
    already set when the capacity reaches 3, the humidity gauge when it
    reaches 5, and the pressure gauge is never set. *)
Theorem parsePacket_panic_partial (buf : slice) (w : World) :
  hd_error (elems buf) = Some x05 ->
  (cap buf < 7)%nat ->
  fst (parsePacket buf w) = Panic "slice bounds out of range" /\
  tempGauge (metrics (snd (parsePacket buf w)))
  = (if (3 <=? cap buf)%nat
     then temperature_of (uint16_be (arr_at buf 1) (arr_at buf 2))
     else tempGauge (metrics w)) /\
  humidityGauge (metrics (snd (parsePacket buf w)))
  = (if (5 <=? cap buf)%nat
     then humidity_of (uint16_be (arr_at buf 3) (arr_at buf 4))
     else humidityGauge (metrics w)) /\
  pressureGauge (metrics (snd (parsePacket buf w))) = pressureGauge (metrics w).
Proof.
  intros Hhd Hcap. destruct buf as [[ | b l] sp]; [discriminate | ].
  injection Hhd as ->.
  destruct (parsePacket_after_tag l sp w) as [-> ->].
  unfold cap in *. unfold arr_at, backing. cbn [elems spare List.length app] in *.
  assert (Hl : (S (List.length l) + List.length sp)%nat = S (List.length (l ++ sp)))
    by (rewrite length_app; reflexivity).
  rewrite Hl in *. clear Hl.
  remember (l ++ sp) as arr eqn:Harr. clear Harr.
  do 6 (destruct arr as [ | ? arr]; [repeat split | ]).
  cbn [List.length] in Hcap. lia.
Qed.

(** The tag and two bytes in an array of three: the temperature is
    published, then [buf[3:5]] panics. *)
Lemma parsePacket_panic_partial_witness :
  fst (parsePacket (mkSlice [x05; x01; xf4] []) world0)
  = Panic "slice bounds out of range" /\
  tempGauge (metrics (snd (parsePacket (mkSlice [x05; x01; xf4] []) world0)))
  = 2.5%float /\
  humidityGauge (metrics (snd (parsePacket (mkSlice [x05; x01; xf4] []) world0)))
  = 0%float /\
  pressureGauge (metrics (snd (parsePacket (mkSlice [x05; x01; xf4] []) world0)))
  = 0%float.
Proof.
  apply (parsePacket_panic_partial (mkSlice [x05; x01; xf4] []) world0).
  - reflexivity.
  - cbn. lia.
Defined.



(** Every one of the 65536 raw field values, checked by evaluation. *)
Lemma all_raw_in_range :
  forallb (fun hi => forallb (fun lo => raw_in_range (Z.of_nat hi * 256 + Z.of_nat lo))
                       (seq 0 256))
    (seq 0 256) = true.
Proof. vm_compute. reflexivity. Qed.

Lemma raw_field_in_range (hi lo : byte) : raw_in_range (uint16_be hi lo) = true.
Proof.
  pose proof (byte_val_range hi) as Hhi. pose proof (byte_val_range lo) as Hlo.
  pose proof all_raw_in_range as H.
  apply (proj1 (Stdlib.Lists.List.forallb_forall _ _)) with (x := Z.to_nat (byte_val hi)) in H;
    [ | apply in_seq; lia].
  apply (proj1 (Stdlib.Lists.List.forallb_forall _ _)) with (x := Z.to_nat (byte_val lo)) in H;
    [ | apply in_seq; lia].
  rewrite !Z2Nat.id in H by lia. exact H.
Qed.

(** X4.  Whatever the six field bytes are, a successful decode publishes
    a temperature between 0 and 327.675 degrees (never a negative one), a
    humidity between 0 and 163.8375 percent, and a pressure between 500
    and 1155.35 hPa. *)
Theorem parsePacket_publishes_in_range (buf : slice) (w : World) :
  hd_error (elems buf) = Some x05 ->
  (7 <= len buf)%nat ->
  in_range 0 327.675 (tempGauge (metrics (snd (parsePacket buf w)))) = true /\
  in_range 0 163.8375 (humidityGauge (metrics (snd (parsePacket buf w)))) = true /\
  in_range 500 1155.35 (pressureGauge (metrics (snd (parsePacket buf w)))) = true.
Proof.
  intros H5 Hlen.
  rewrite (parsePacket_long buf w Hlen), (first_byte_5 buf H5).
  cbn [snd decoded metrics tempGauge humidityGauge pressureGauge].
  pose proof (raw_field_in_range (byte_at buf 1) (byte_at buf 2)) as Ht.
  pose proof (raw_field_in_range (byte_at buf 3) (byte_at buf 4)) as Hh.
  pose proof (raw_field_in_range (byte_at buf 5) (byte_at buf 6)) as Hp.
  unfold raw_in_range in Ht, Hh, Hp.
  apply andb_prop in Ht as [Ht _]. apply andb_prop in Ht as [Ht _].
  apply andb_prop in Hh as [Hh _]. apply andb_prop in Hh as [_ Hh].
  apply andb_prop in Hp as [_ Hp].
  repeat split; assumption.
Qed.

(** All field bytes [FF]: the three upper bounds. *)
Lemma parsePacket_publishes_in_range_witness :
  in_range 0 327.675
    (tempGauge (metrics (snd (parsePacket (mkSlice (x05 :: repeat xff 6) []) world0))))
  = true /\
  in_range 0 163.8375
    (humidityGauge (metrics (snd (parsePacket (mkSlice (x05 :: repeat xff 6) []) world0))))
  = true /\
  in_range 500 1155.35
    (pressureGauge (metrics (snd (parsePacket (mkSlice (x05 :: repeat xff 6) []) world0))))
  = true.
Proof.
  apply (parsePacket_publishes_in_range (mkSlice (x05 :: repeat xff 6) []) world0).
  - reflexivity.
  - cbn. lia.
Defined.

(* ================================================================== *)
(** ** More on reading a field *)

Lemma be_uint_bound (bs : list byte) :
  forall n, 0 <= n ->
  0 <= be_uint bs n < (n + 1) * 256 ^ Z.of_nat (List.length bs).
Proof.
  induction bs as [ | b bs IH]; intros n Hn.
  - cbn. lia.
  - pose proof (byte_val_range b) as Hv.
    assert (Hp : 0 < 256 ^ Z.of_nat (List.length bs))
      by (apply Z.pow_pos_nonneg; lia).
    unfold be_uint. cbn [fold_left List.length].
    rewrite Nat2Z.inj_succ, Z.pow_succ_r by lia.
    specialize (IH (n * 256 + byte_val b) ltac:(lia)).
    unfold be_uint in IH. nia.
Qed.

(** X5.  Printing a field of one to six bytes with [%x] and reading the
    text back with [ParseInt] in base 16 never fails and gives the bytes
    as one big-endian unsigned number: the sign that [ParseInt] accepts
    is never produced, and the value cannot be negative. *)
Theorem ParseInt_reads_printed_field (bs : list byte) :
  (1 <= List.length bs <= 6)%nat ->
  ParseInt (Sprintf_x bs) 16 64 = (be_uint bs 0, None) /\
  0 <= be_uint bs 0 < 256 ^ Z.of_nat (List.length bs).
Proof.
  intros Hlen.
  assert (Hpow : 256 ^ Z.of_nat (List.length bs) <= 2 ^ 48).
  { change (2 ^ 48) with (256 ^ 6). apply Z.pow_le_mono_r; lia. }
  pose proof (be_uint_bound bs 0 ltac:(lia)) as Hb.
  split; [ | lia].
  destruct bs as [ | b bs']; [cbn in Hlen; lia | ].
  destruct (nibbles b) as (Hhi & _ & _).
  destruct (hexdigit_no_sign _ Hhi) as (Hplus & Hminus).
  unfold ParseInt. cbn [Sprintf_x]. rewrite Hplus, Hminus. cbn [orb negb andb].
  change (String (hexdigit (Z.shiftr (byte_val b) 4))
            (String (hexdigit (Z.land (byte_val b) 15)) (Sprintf_x bs')))
    with (Sprintf_x (b :: bs')).
  assert (HU : ParseUint (Sprintf_x (b :: bs')) 16 64 = (be_uint (b :: bs') 0, None)).
  { unfold ParseUint. cbn [Sprintf_x].
    change (String (hexdigit (Z.shiftr (byte_val b) 4))
              (String (hexdigit (Z.land (byte_val b) 15)) (Sprintf_x bs')))
      with (Sprintf_x (b :: bs')).
    change ((2 <=? 16) && (16 <=? 36)) with true.
    change (64 =? 0) with false. cbv iota.
    change ((64 <? 0) || (64 >? 64)) with false.
    cbn [negb].
    rewrite ParseUint_loop_hex; [reflexivity | lia | lia]. }
  rewrite HU. change (64 =? 0) with false. cbv iota.
  assert (H63 : 2 ^ (64 - 1) = 9223372036854775808) by reflexivity.
  assert (H48 : 2 ^ 48 = 281474976710656) by reflexivity.
  rewrite H63.
  destruct (_ >=? _) eqn:E; [lia | reflexivity].
Qed.

(** The field [C3 50]. *)
Lemma ParseInt_reads_printed_field_witness :
  ParseInt (Sprintf_x [xc3; x50]) 16 64 = (50000, None) /\
  0 <= 50000 < 65536.
Proof.
  apply (ParseInt_reads_printed_field [xc3; x50]). cbn. lia.
Defined.

(* ================================================================== *)
(** ** More on one cycle *)

(** [copy] element by element: the source where it reaches, the
    destination beyond. *)
Lemma byte_at_copy (dst : slice) (src : list byte) (i : nat) :
  (i < len dst)%nat ->
  byte_at (copy dst src) i
  = if (i <? List.length src)%nat then nth i src x00 else byte_at dst i.
Proof.
  intros Hi. unfold byte_at, copy. cbn [elems]. fold (len dst).
  assert (Hf : List.length (firstn (Nat.min (len dst) (List.length src)) src)
               = Nat.min (len dst) (List.length src)).
  { rewrite length_firstn. lia. }
  destruct (i <? List.length src)%nat eqn:E.
  - apply Nat.ltb_lt in E.
    rewrite app_nth1 by (rewrite Hf; lia).
    rewrite Stdlib.Lists.List.nth_firstn.
    destruct (i <? Nat.min (len dst) (List.length src))%nat eqn:E2; [reflexivity | ].
    apply Nat.ltb_ge in E2. lia.
  - apply Nat.ltb_ge in E.
    rewrite app_nth2 by (rewrite Hf; lia).
    rewrite Hf, Stdlib.Lists.List.nth_skipn. f_equal. lia.
Qed.

Lemma byte_at_make (n i : nat) : byte_at (make n) i = x00.
Proof. unfold byte_at, make. cbn [elems]. apply nth_repeat. Qed.

(** The locals after a scan that ends on its first match. *)
Lemma after_first_match (pre : list (ScanResult * option error)) (dev : ScanResult)
    (payload : list byte) :
  Forall (fun x => qualifies (fst x) = None) pre ->
  qualifies dev = Some payload ->
  after_scan (pre ++ [(dev, None)]) (make 32, None) = (copy (make 32) payload, None).
Proof.
  intros Hpre Hdev.
  unfold after_scan. rewrite fold_left_app. fold (after_scan pre (make 32, None)).
  rewrite (after_scan_silent pre _ Hpre). cbn [fold_left fst snd].
  unfold after_device. rewrite Hdev. reflexivity.
Qed.

Lemma byte_at_first_match (payload : list byte) (i : nat) :
  (i < 32)%nat -> byte_at (copy (make 32) payload) i = nth i payload x00.
Proof.
  intros Hi. rewrite byte_at_copy by (unfold len, make; cbn [elems]; rewrite repeat_length; exact Hi).
  rewrite byte_at_make.
  destruct (i <? List.length payload)%nat eqn:E; [reflexivity | ].
  apply Nat.ltb_ge in E. symmetry. apply nth_overflow. exact E.
Qed.

(** X6.  A cycle that ends on its first match, with a payload that
    starts with 5, succeeds whatever the length of the payload (shorter
    than seven bytes, or longer than the 32 bytes of the buffer) and
    publishes its bytes 1 to 6, a missing byte counting as zero. *)
Theorem measure_first_match_decodes
    (pre : list (ScanResult * option error)) (dev : ScanResult)
    (payload : list byte) (t : float) (w : World) :
  Forall (fun x => qualifies (fst x) = None) pre ->
  qualifies dev = Some payload ->
  hd_error payload = Some x05 ->
  fst (measure (mkCycle (pre ++ [(dev, None)]) None t) w) = Done None /\
  gauges (metrics (snd (measure (mkCycle (pre ++ [(dev, None)]) None t) w)))
  = (temperature_of (uint16_be (nth 1 payload x00) (nth 2 payload x00)),
     humidity_of (uint16_be (nth 3 payload x00) (nth 4 payload x00)),
     pressure_of (uint16_be (nth 5 payload x00) (nth 6 payload x00))).
Proof.
  intros Hpre Hdev H5.
  rewrite measure_spec. unfold cycle_result, scan_stop, scan_buf.
  cbn [scan_err found]. rewrite (after_first_match pre dev payload Hpre Hdev).
  cbn [fst snd]. rewrite !byte_at_first_match by lia.
  destruct payload as [ | b0 payload]; [discriminate | ].
  injection H5 as ->. cbn [nth].
  change (byte_val x05 =? 5) with true. cbv iota.
  split; reflexivity.
Qed.

(** A 40-byte payload: the sample, then 33 bytes the buffer has no room
    for. *)
Lemma measure_first_match_decodes_witness :
  fst (measure (mkCycle ([(phone, None)] ++ [(ruuvi (sample_payload ++ repeat xff 33), None)])
                  None 3) world0) = Done None /\
  gauges (metrics (snd (measure
                          (mkCycle ([(phone, None)]
                                    ++ [(ruuvi (sample_payload ++ repeat xff 33), None)])
                             None 3) world0)))
  = (2.5, 25, 1000)%float.
Proof.
  apply (measure_first_match_decodes [(phone, None)]
           (ruuvi (sample_payload ++ repeat xff 33))
           (sample_payload ++ repeat xff 33) 3 world0).
  - repeat constructor.
  - reflexivity.
  - reflexivity.
Defined.

(** X7.  A cycle that ends on its first match, with a payload that is
    empty or starts with another byte than 5, fails with the
    invalid-format error wrapped as "parsing packet", and the gauges keep
    their values. *)
Theorem measure_first_match_rejected
    (pre : list (ScanResult * option error)) (dev : ScanResult)
    (payload : list byte) (t : float) (w : World) :
  Forall (fun x => qualifies (fst x) = None) pre ->
  qualifies dev = Some payload ->
  byte_val (nth 0 payload x00) <> 5 ->
  fst (measure (mkCycle (pre ++ [(dev, None)]) None t) w)
  = Done (Some (ErrParsingPacket ErrInvalidFormat)) /\
  gauges (metrics (snd (measure (mkCycle (pre ++ [(dev, None)]) None t) w)))
  = gauges (metrics w).
Proof.
  intros Hpre Hdev H5.
  rewrite measure_spec. unfold cycle_result, scan_stop, scan_buf.
  cbn [scan_err found]. rewrite (after_first_match pre dev payload Hpre Hdev).
  cbn [fst snd]. rewrite byte_at_first_match by lia.
  destruct (byte_val (nth 0 payload x00) =? 5) eqn:E;
    [apply Z.eqb_eq in E; contradiction | ].
  split; reflexivity.
Qed.

(** A tag that advertises an empty payload. *)
Lemma measure_first_match_rejected_witness :
  fst (measure (mkCycle ([] ++ [(ruuvi [], None)]) None 3) world0)
  = Done (Some (ErrParsingPacket ErrInvalidFormat)) /\
  gauges (metrics (snd (measure (mkCycle ([] ++ [(ruuvi [], None)]) None 3) world0)))
  = gauges (metrics world0).
Proof.
  apply (measure_first_match_rejected [] (ruuvi []) [] 3 world0).
  - constructor.
  - reflexivity.
  - discriminate.
Defined.



(** X9.  An error of [adapter.Scan] comes first: whatever the callback
    saw before, a captured payload or a failed stop request, the cycle
    returns the scan's own error wrapped as "scanning", the decoder is not
    called and the gauges keep their values. *)
Theorem measure_scan_error_first (c : Cycle) (e : error) (w : World) :
  scan_err c = Some e ->
  exists out,
    fst (measure c w) = Done (Some (ErrScanning e)) /\
    gauges (metrics (snd (measure c w))) = gauges (metrics w) /\
    output (snd (measure c w)) = out ++ output w /\
    forall n b, ~ In (OutData n b) out.
Proof.
  intros Herr. exists (scan_output (found c)).
  rewrite measure_spec. unfold cycle_result. rewrite Herr.
  repeat split. apply scan_output_no_data.
Qed.

(** The tag was captured and its stop request failed, then the scan
    itself reports an error. *)
Lemma measure_scan_error_first_witness :
  exists out,
    fst (measure (mkCycle (found stop_failed_cycle) (Some (ErrAdapter "lost")) 2) world0)
    = Done (Some (ErrScanning (ErrAdapter "lost"))) /\
    gauges (metrics (snd (measure (mkCycle (found stop_failed_cycle)
                                     (Some (ErrAdapter "lost")) 2) world0)))
    = gauges (metrics world0) /\
    output (snd (measure (mkCycle (found stop_failed_cycle)
                            (Some (ErrAdapter "lost")) 2) world0))
    = out ++ output world0 /\
    forall n b, ~ In (OutData n b) out.
Proof.
  apply (measure_scan_error_first
           (mkCycle (found stop_failed_cycle) (Some (ErrAdapter "lost")) 2)
           (ErrAdapter "lost") world0).
  reflexivity.
Defined.

(** A scan in which no stop request fails leaves [stopScanErr] alone. *)
Lemma after_scan_keeps_stop (ds : list (ScanResult * option error)) :
  forall l : locals,
  existsb stop_fails ds = false -> snd (after_scan ds l) = snd l.
Proof.
  induction ds as [ | [d stop] ds IH]; intros l H; [reflexivity | ].
  cbn [existsb] in H. apply orb_false_iff in H as [Hx Hds].
  unfold after_scan. cbn [fold_left fst snd]. fold (after_scan ds (after_device d stop l)).
  rewrite (IH _ Hds). unfold stop_fails in Hx. cbn [fst snd] in Hx.
  unfold after_device. destruct (qualifies d); [ | reflexivity].
  destruct stop; [discriminate | reflexivity].
Qed.

(** X10.  [stopScanErr] is overwritten by each failed stop request and
    reset by none: when the scan returns without error, the cycle returns
    the error of the LAST stop request that failed, also when stop
    requests before it failed and stop requests after it succeeded. *)
Theorem measure_last_stop_error
    (ds1 ds2 : list (ScanResult * option error)) (d : ScanResult)
    (payload : list byte) (e : error) (t : float) (w : World) :
  qualifies d = Some payload ->
  existsb stop_fails ds2 = false ->
  fst (measure (mkCycle (ds1 ++ (d, Some e) :: ds2) None t) w)
  = Done (Some (ErrStoppingScan e)).
Proof.
  intros Hd Hds2.
  rewrite measure_spec. unfold cycle_result, scan_stop. cbn [scan_err found].
  unfold after_scan. rewrite fold_left_app. cbn [fold_left fst snd].
  fold (after_scan ds1 (make 32, None)).
  fold (after_scan ds2 (after_device d (Some e) (after_scan ds1 (make 32, None)))).
  rewrite (after_scan_keeps_stop ds2 _ Hds2).
  unfold after_device. rewrite Hd. reflexivity.
Qed.

(** Two failed stop requests, then one that succeeds. *)
Lemma measure_last_stop_error_witness :
  fst (measure
         (mkCycle ([(ruuvi sample_payload, Some (ErrAdapter "first"))]
                   ++ (ruuvi sample_payload, Some (ErrAdapter "second"))
                      :: [(ruuvi sample_payload, None)]) None 3) world0)
  = Done (Some (ErrStoppingScan (ErrAdapter "second"))).
Proof.
  apply (measure_last_stop_error
           [(ruuvi sample_payload, Some (ErrAdapter "first"))]
           [(ruuvi sample_payload, None)]
           (ruuvi sample_payload) sample_payload (ErrAdapter "second") 3 world0).
  - reflexivity.
  - vm_compute. reflexivity.
Defined.

(** X11.  A cycle reads nothing of the collectors or of what was printed
    before: in any two worlds it ends the same way, and when it succeeds
    it leaves the same three gauge values. *)
Theorem measure_independent (c : Cycle) (w1 w2 : World) :
  fst (measure c w1) = fst (measure c w2) /\
  match fst (measure c w1) with
  | Done None =>
      gauges (metrics (snd (measure c w1))) = gauges (metrics (snd (measure c w2)))
  | _ => True
  end.
Proof.
  rewrite !measure_spec. unfold cycle_result. cbn [fst snd].
  destruct (scan_err c); [split; [reflexivity | exact I] | ].
  destruct (scan_stop c); [split; [reflexivity | exact I] | ].
  destruct (byte_val (byte_at (scan_buf c) 0) =? 5);
    split; try reflexivity; exact I.
Qed.

(* ================================================================== *)
(** ** More on the scheduler *)

Lemma succeeds_true (c : Cycle) (w : World) :
  succeeds c = true ->
  fst (cycle_result c w) = None /\
  gauges (metrics (snd (cycle_result c w))) = reading c.
Proof.
  unfold succeeds, reading. rewrite measure_spec. unfold cycle_result. cbn [fst snd].
  destruct (scan_err c); [discriminate | ].
  destruct (scan_stop c); [discriminate | ].
  destruct (byte_val (byte_at (scan_buf c) 0) =? 5); [ | discriminate].
  intros _. split; reflexivity.
Qed.

Lemma succeeds_false (c : Cycle) (w : World) :
  succeeds c = false -> exists e, fst (cycle_result c w) = Some e.
Proof.
  unfold succeeds. rewrite measure_spec. unfold cycle_result. cbn [fst snd].
  destruct (scan_err c); [eexists; reflexivity | ].
  destruct (scan_stop c); [eexists; reflexivity | ].
  destruct (byte_val (byte_at (scan_buf c) 0) =? 5); [discriminate | ].
  eexists; reflexivity.
Qed.

Lemma after_tick_gauges (w : World) (c : Cycle) :
  gauges (metrics (after_tick w c))
  = if succeeds c then reading c else gauges (metrics w).
Proof.
  unfold after_tick. destruct (succeeds c) eqn:E.
  - destruct (succeeds_true c w E) as [-> <-]. reflexivity.
  - destruct (succeeds_false c w E) as [e He]. rewrite He.
    cbn [metrics Observe_measureTime gauges tempGauge humidityGauge pressureGauge].
    rewrite (cycle_failure_metrics c w e He). reflexivity.
Qed.

Lemma failed_ticks_gauges (ts : list Cycle) :
  forall w : World,
  forallb (fun c => negb (succeeds c)) ts = true ->
  gauges (metrics (fold_left after_tick ts w)) = gauges (metrics w).
Proof.
  induction ts as [ | c ts IH]; intros w H; [reflexivity | ].
  cbn [forallb] in H. apply andb_prop in H as [Hc Hts].
  cbn [fold_left]. rewrite (IH _ Hts), after_tick_gauges.
  destruct (succeeds c); [discriminate | reflexivity].
Qed.

Lemma latest_tick_gauges (ts1 ts2 : list Cycle) (c : Cycle) (w : World) :
  succeeds c = true ->
  forallb (fun c' => negb (succeeds c')) ts2 = true ->
  gauges (metrics (fold_left after_tick (ts1 ++ c :: ts2) w)) = reading c.
Proof.
  intros Hc Hts. rewrite fold_left_app. cbn [fold_left].
  rewrite (failed_ticks_gauges ts2 _ Hts), after_tick_gauges, Hc. reflexivity.
Qed.

(** X12.  While [main] runs, the gauges hold the reading of the last
    cycle that succeeded, the startup cycle included, however many failed
    cycles have followed it: a failure never resets or zeroes them. *)
Theorem main_latest_reading
    (measureEvery : Z) (first : Cycle) (ticks ts1 ts2 : list Cycle) (c : Cycle)
    (w : World) :
  0 < measureEvery ->
  succeeds first = true ->
  first :: ticks = ts1 ++ c :: ts2 ->
  succeeds c = true ->
  forallb (fun c' => negb (succeeds c')) ts2 = true ->
  exists w',
    main measureEvery None first ticks w = (Done tt, w') /\
    gauges (metrics w') = reading c.
Proof.
  intros Hpos Hfirst Hsplit Hc Hts.
  destruct (succeeds_true first w Hfirst) as [Hr Hg].
  unfold main, bind. rewrite measure_spec, Hr.
  unfold NewTicker. destruct (measureEvery <=? 0) eqn:E; [lia | ].
  unfold ret at 1. unfold print at 1. rewrite ticker_loop_spec.
  eexists. split; [reflexivity | ].
  destruct ts1 as [ | x ts1'].
  - cbn [app] in Hsplit. injection Hsplit as <- <-.
    rewrite (failed_ticks_gauges ticks _ Hts). exact Hg.
  - cbn [app] in Hsplit. injection Hsplit as <- ->.
    apply latest_tick_gauges; assumption.
Qed.

(** The startup cycle reads the sample; of the three ticks the first
    reads the high-bit payload and the other two fail. *)
Lemma main_latest_reading_witness :
  exists w',
    main 300000000000 None good_cycle
      [mkCycle [(ruuvi high_bit_payload, None)] None 2;
       stop_failed_cycle; start_failed_cycle] world0
    = (Done tt, w') /\
    gauges (metrics w') = reading (mkCycle [(ruuvi high_bit_payload, None)] None 2).
Proof.
  apply (main_latest_reading 300000000000 good_cycle
           [mkCycle [(ruuvi high_bit_payload, None)] None 2;
            stop_failed_cycle; start_failed_cycle]
           [good_cycle] [stop_failed_cycle; start_failed_cycle]
           (mkCycle [(ruuvi high_bit_payload, None)] None 2) world0).
  - reflexivity.
  - vm_compute. reflexivity.
  - reflexivity.
  - vm_compute. reflexivity.
  - vm_compute. reflexivity.
Defined.

(** X13.  With a [measure_every] of zero or less, [main] still runs the
    startup cycle; when that cycle succeeds its reading is published and
    its duration observed, and then [time.NewTicker] panics: the process
    dies before any tick, whatever ticks would have come. *)
Theorem main_nonpositive_interval
    (measureEvery : Z) (first : Cycle) (ticks : list Cycle) (w : World) :
  measureEvery <= 0 ->
  succeeds first = true ->
  exists w',
    main measureEvery None first ticks w
    = (Panic "non-positive interval for NewTicker", w') /\
    gauges (metrics w') = reading first /\
    measureTime (metrics w') = elapsed first :: measureTime (metrics w).
Proof.
  intros Hle Hfirst.
  destruct (succeeds_true first w Hfirst) as [Hr Hg].
  unfold main, bind. rewrite measure_spec, Hr.
  unfold NewTicker. destruct (measureEvery <=? 0) eqn:E; [ | lia].
  unfold panic. eexists. split; [reflexivity | ].
  split; [exact Hg | ].
  cbn [Observe_measureTime metrics measureTime].
  destruct (cycle_frame first w) as (_ & _ & ->). reflexivity.
Qed.

(** [--measure_every=0s]. *)
Lemma main_nonpositive_interval_witness :
  exists w',
    main 0 None good_cycle [good_cycle] world0
    = (Panic "non-positive interval for NewTicker", w') /\
    gauges (metrics w') = reading good_cycle /\
    measureTime (metrics w') = elapsed good_cycle :: measureTime (metrics world0).
Proof.
  apply (main_nonpositive_interval 0 good_cycle [good_cycle] world0).
  - discriminate.
  - vm_compute. reflexivity.
Defined.

(* ================================================================== *)
(** ** More on the callback *)

Lemma prefix_spec (p : string) :
  forall s : string,
  String.prefix p s = true <-> exists post, s = String.append p post.
Proof.
  induction p as [ | a p IH]; intros s.
  - split; [intros _; exists s; reflexivity | intros _; destruct s; reflexivity].
  - destruct s as [ | b s].
    + split; [discriminate | intros [post H]; discriminate].
    + cbn [String.prefix String.append]. destruct (ascii_dec a b) as [-> | Hne].
      * rewrite IH. split; intros [post H]; exists post.
        -- rewrite H. reflexivity.
        -- injection H as H. exact H.
      * split; [discriminate | intros [post H]]. injection H as H _.
        exfalso. apply Hne. symmetry. exact H.
Qed.

Lemma Contains_unfold (s sub : string) :
  Contains s sub
  = if String.prefix sub s then true
    else match s with
         | EmptyString => false
         | String _ s' => Contains s' sub
         end.
Proof. destruct s; reflexivity. Qed.

(** [Contains] holds exactly of the strings that have the other as a
    substring. *)
Lemma Contains_spec (sub : string) :
  forall s : string,
  Contains s sub = true
  <-> exists pre post, s = String.append pre (String.append sub post).
Proof.
  intros s. split.
  - induction s as [ | a s IH]; rewrite Contains_unfold;
      destruct (String.prefix sub _) eqn:E.
    + intros _. apply prefix_spec in E as [post ->]. exists EmptyString, post. reflexivity.
    + discriminate.
    + intros _. apply prefix_spec in E as [post ->]. exists EmptyString, post. reflexivity.
    + intros H. destruct (IH H) as (pre & post & ->).
      exists (String a pre), post. reflexivity.
  - intros (pre & post & ->). induction pre as [ | a pre IH].
    + rewrite Contains_unfold.
      replace (String.prefix sub (String.append EmptyString (String.append sub post)))
        with true; [reflexivity | ].
      symmetry. apply prefix_spec. exists post. reflexivity.
    + rewrite Contains_unfold. cbn [String.append].
      destruct (String.prefix sub _); [reflexivity | exact IH].
Qed.

(** X14.  What the callback does with a device, in full.  When the
    advertised name has "Ruuvi" somewhere in it, in this spelling, and
    the manufacturer data has an entry under 1177, the entry is copied to
    the start of the buffer and the scan is asked to stop, a failure of
    which is recorded.  In every other case the callback only prints the
    device: buffer and stop error stay as they were and no stop is
    requested. *)
Theorem callback_filter (device : ScanResult) (stop : option error)
    (buf : slice) (stopScanErr : option error) (w : World) :
  ((exists pre post,
      LocalName device = String.append pre (String.append "Ruuvi" post)) /\
   exists payload,
     ManufacturerData device !! 1177%N = Some payload /\
     callback device stop (buf, stopScanErr) w
     = (Done (copy buf payload,
              match stop with
              | Some err => Some (ErrStoppingScan err)
              | None => stopScanErr
              end),
        mkWorld (metrics w) (OutStoppingScan :: OutFoundDevice device :: output w)))
  \/
  ((~ (exists pre post,
         LocalName device = String.append pre (String.append "Ruuvi" post))
    \/ ManufacturerData device !! 1177%N = None) /\
   callback device stop (buf, stopScanErr) w
   = (Done (buf, stopScanErr),
      mkWorld (metrics w) (OutFoundDevice device :: output w))).
Proof.
  rewrite callback_spec. unfold after_device, device_output, qualifies.
  destruct (Contains (LocalName device) "Ruuvi") eqn:E.
  - apply Contains_spec in E.
    destruct (ManufacturerData device !! 1177%N) as [payload | ] eqn:Emd.
    + left. split; [exact E | ]. exists payload. split; reflexivity.
    + right. split; [right; reflexivity | reflexivity].
  - right. split; [ | reflexivity].
    left. intros H. apply Contains_spec in H. congruence.
Qed.

(** X15.  The buffer is not cleared between two matches of one scan:
    after the callback took a payload from a second device, each of the
    32 bytes is the second payload's where that reaches, and otherwise
    still the first payload's, or zero where neither reaches. *)
Theorem callback_twice_overlays
    (d1 d2 : ScanResult) (s1 s2 : option error) (p1 p2 : list byte) (w : World) :
  qualifies d1 = Some p1 ->
  qualifies d2 = Some p2 ->
  exists buf stopScanErr w',
    Scan_deliver [(d1, s1); (d2, s2)] (make 32, None) w = (Done (buf, stopScanErr), w') /\
    len buf = 32%nat /\
    forall i, (i < 32)%nat ->
      byte_at buf i
      = if (i <? List.length p2)%nat then nth i p2 x00 else nth i p1 x00.
Proof.
  intros H1 H2. rewrite Scan_deliver_spec.
  unfold after_scan. cbn [fold_left fst snd]. unfold after_device.
  rewrite H1, H2. cbn [fst snd].
  eexists _, _, _. split; [reflexivity | ].
  assert (Hlen : len (copy (make 32) p1) = 32%nat).
  { destruct (copy_len (make 32) p1) as [-> _]. unfold len, make. cbn [elems].
    apply repeat_length. }
  split.
  - destruct (copy_len (copy (make 32) p1) p2) as [-> _]. exact Hlen.
  - intros i Hi. rewrite byte_at_copy by lia.
    destruct (i <? List.length p2)%nat; [reflexivity | ].
    apply byte_at_first_match. exact Hi.
Qed.

(** Seven bytes, then the single byte [05]: bytes 1 to 6 of the first
    payload are still in the buffer. *)
Lemma callback_twice_overlays_witness :
  exists buf stopScanErr w',
    Scan_deliver [(ruuvi high_bit_payload, Some (ErrAdapter "stop failed"));
                  (ruuvi [x05], None)] (make 32, None) world0
    = (Done (buf, stopScanErr), w') /\
    len buf = 32%nat /\
    forall i, (i < 32)%nat ->
      byte_at buf i
      = if (i <? List.length [x05])%nat then nth i [x05] x00
        else nth i high_bit_payload x00.
Proof.
  apply (callback_twice_overlays (ruuvi high_bit_payload) (ruuvi [x05])
           (Some (ErrAdapter "stop failed")) None high_bit_payload [x05] world0).
  - reflexivity.
  - reflexivity.
Defined.

Lemma scan_output_no_error_line (ds : list (ScanResult * option error)) :
  List.filter is_error_line (scan_output ds) = [].
Proof.
  induction ds as [ | [d stop] ds IH]; [reflexivity | ].
  cbn [scan_output fst]. rewrite Stdlib.Lists.List.filter_app, IH.
  unfold device_output. destruct (qualifies d); reflexivity.
Qed.

(** A cycle prints no error line itself. *)
Lemma cycle_error_lines (c : Cycle) (w : World) :
  error_lines (snd (cycle_result c w)) = error_lines w.
Proof.
  unfold error_lines, cycle_result, scanned, decoded, rejected.
  destruct (scan_err c);
    [ | destruct (scan_stop c);
        [ | destruct (byte_val (byte_at (scan_buf c) 0) =? 5)]];
    cbn [snd output List.filter is_error_line];
    rewrite Stdlib.Lists.List.filter_app, scan_output_no_error_line; reflexivity.
Qed.

Lemma after_tick_error_lines (w : World) (c : Cycle) :
  error_lines (after_tick w c)
  = (error_lines w + if succeeds c then 0 else 1)%nat.
Proof.
  unfold after_tick. destruct (succeeds c) eqn:E.
  - destruct (succeeds_true c w E) as [-> _].
    unfold error_lines at 1. cbn [Observe_measureTime output].
    fold (error_lines (snd (cycle_result c w))). rewrite cycle_error_lines. lia.
  - destruct (succeeds_false c w E) as [e ->].
    unfold error_lines at 1. cbn [Observe_measureTime output List.filter is_error_line List.length].
    fold (error_lines (snd (cycle_result c w))). rewrite cycle_error_lines. lia.
Qed.

(** X16.  The ticker loop reports a failed cycle by one printed line and
    in no other way: after any ticks the loop is still running, the
    number of error lines has grown by the number of ticks whose cycle
    failed, and the two counters are where they were. *)
Theorem ticker_loop_logs_failures (ticks : list Cycle) (w : World) :
  exists w',
    ticker_loop ticks w = (Done tt, w') /\
    error_lines w'
    = (error_lines w + List.length (List.filter (fun c => negb (succeeds c)) ticks))%nat /\
    numMeasurements (metrics w') = numMeasurements (metrics w) /\
    numMeasurementsErrs (metrics w') = numMeasurementsErrs (metrics w).
Proof.
  rewrite ticker_loop_spec. eexists. split; [reflexivity | ].
  revert w. induction ticks as [ | c ticks IH]; intros w.
  - cbn. repeat split. lia.
  - cbn [fold_left List.filter].
    destruct (IH (after_tick w c)) as (He & Hn & Hm).
    rewrite He, Hn, Hm, after_tick_error_lines.
    assert (Hc : numMeasurements (metrics (after_tick w c)) = numMeasurements (metrics w) /\
                 numMeasurementsErrs (metrics (after_tick w c))
                 = numMeasurementsErrs (metrics w)).
    { unfold after_tick. destruct (cycle_frame c w) as (H1 & H2 & _).
      destruct (fst (cycle_result c w));
        cbn [Observe_measureTime metrics numMeasurements numMeasurementsErrs];
        split; assumption. }
    destruct Hc as [-> ->].
    destruct (succeeds c); cbn [negb List.length]; repeat split; lia.
Qed.
